(** * Dial-up modem text codec: frame codec, FSK synthesizer and demodulator

    A shallow embedding of [DialupModem] from [dialup_modem_codec.py].

    Conventions of the embedding.
    - A Python [int] is a [Z]; a [bytes] object and a list of ints are
      [list Z]; a [str] is the list of its code points.
    - A call either returns a value or raises: [result].
    - numpy's float64 samples are idealised as real numbers ([R]): the
      statements about samples and scores are statements of real arithmetic.
    - Slices and ranges are modelled for the non-negative indices that occur
      when the sample rate and the baud rate are not negative.
    - Console output ([print]) and the debug flag have no effect on any
      returned value and are left out. *)

From Stdlib Require Import ZArith List Bool Lia Reals Lra.
Import ListNotations.
Open Scope Z_scope.

(** ** Python values and control flow *)

Inductive exn : Type :=
| UnicodeEncodeError
| OverflowError
| ValueError
| IndexError
| ZeroDivisionError.

Inductive result (A : Type) : Type :=
| Returns (a : A)
| Raises (e : exn).

Arguments Returns {A} a.
Arguments Raises {A} e.

Definition bind {A B : Type} (m : result A) (k : A -> result B) : result B :=
  match m with
  | Returns a => k a
  | Raises e => Raises e
  end.

Notation "x <- m ;; k" := (bind m (fun x => k))
  (at level 61, m at next level, right associativity).

(** [range(start, stop, step)] for a non-zero step; a zero step raises
    [ValueError] in Python and is handled where the loop is. *)
Definition py_range (start stop step : Z) : list Z :=
  let n := if 0 <? step
           then (stop - start + step - 1) / step
           else (start - stop - step - 1) / (- step) in
  map (fun k => start + Z.of_nat k * step) (seq 0 (Z.to_nat n)).

(** [l[a:b]] for indices [0 <= a]; a slice never raises and is cut at the
    end of the list. *)
Definition slice {A : Type} (l : list A) (a b : Z) : list A :=
  firstn (Z.to_nat (b - a)) (skipn (Z.to_nat a) l).

(** [l[i]] for [0 <= i]: raises [IndexError] past the end. *)
Definition index (l : list Z) (i : Z) : result Z :=
  match nth_error l (Z.to_nat i) with
  | Some v => Returns v
  | None => Raises IndexError
  end.

Definition len {A : Type} (l : list A) : Z := Z.of_nat (length l).

Fixpoint list_eqb (l1 l2 : list Z) : bool :=
  match l1, l2 with
  | [], [] => true
  | x :: l1', y :: l2' => (x =? y) && list_eqb l1' l2'
  | _, _ => false
  end.

(** ** The UTF-8 codec of the Python runtime

    [str.encode('utf-8')] and [bytes.decode('utf-8', errors='ignore')] are
    built-ins of the interpreter; they are modelled after the CPython
    implementation (strict encoder, decoder that drops each maximal
    ill-formed subsequence). *)
Module UTF8.

Definition is_surrogate (c : Z) : bool := (0xD800 <=? c) && (c <=? 0xDFFF).

(** One code point to its UTF-8 bytes; [None] is [UnicodeEncodeError]. *)
Definition encode_char (c : Z) : option (list Z) :=
  if c <? 0 then None
  else if c <? 0x80 then Some [c]
  else if c <? 0x800 then Some [0xC0 + c / 64; 0x80 + c mod 64]
  else if c <? 0x10000 then
    if is_surrogate c then None
    else Some [0xE0 + c / 4096; 0x80 + (c / 64) mod 64; 0x80 + c mod 64]
  else if c <? 0x110000 then
    Some [0xF0 + c / 262144; 0x80 + (c / 4096) mod 64;
          0x80 + (c / 64) mod 64; 0x80 + c mod 64]
  else None.

Fixpoint encode (s : list Z) : option (list Z) :=
  match s with
  | [] => Some []
  | c :: s' =>
      match encode_char c, encode s' with
      | Some bs, Some rest => Some (bs ++ rest)
      | _, _ => None
      end
  end.

Definition is_cont (b : Z) : bool := (0x80 <=? b) && (b <? 0xC0).

(** Second byte of a three-byte sequence that the decoder rejects. *)
Definition bad2_of3 (b1 b2 : Z) : bool :=
  negb (is_cont b2)
  || (if b2 <? 0xA0 then b1 =? 0xE0 else b1 =? 0xED).

(** Second byte of a four-byte sequence that the decoder rejects. *)
Definition bad2_of4 (b1 b2 : Z) : bool :=
  negb (is_cont b2)
  || (if b2 <? 0x90 then b1 =? 0xF0 else b1 =? 0xF4).

(** [bytes.decode('utf-8', errors='ignore')]: an invalid start byte is
    skipped; an invalid continuation skips the bytes read before it; a
    sequence cut by the end of the data drops the rest. *)
Fixpoint decode_ignore (bs : list Z) : list Z :=
  match bs with
  | [] => []
  | b1 :: r1 =>
      if b1 <? 0x80 then b1 :: decode_ignore r1
      else if b1 <? 0xC2 then decode_ignore r1
      else if b1 <? 0xE0 then
        match r1 with
        | [] => []
        | b2 :: r2 =>
            if is_cont b2
            then ((b1 - 0xC0) * 64 + (b2 - 0x80)) :: decode_ignore r2
            else decode_ignore r1
        end
      else if b1 <? 0xF0 then
        match r1 with
        | [] => []
        | b2 :: r2 =>
            if bad2_of3 b1 b2 then decode_ignore r1
            else
              match r2 with
              | [] => []
              | b3 :: r3 =>
                  if is_cont b3
                  then ((b1 - 0xE0) * 4096 + (b2 - 0x80) * 64 + (b3 - 0x80))
                         :: decode_ignore r3
                  else decode_ignore r2
              end
        end
      else if b1 <? 0xF5 then
        match r1 with
        | [] => []
        | b2 :: r2 =>
            if bad2_of4 b1 b2 then decode_ignore r1
            else
              match r2 with
              | [] => []
              | b3 :: r3 =>
                  if negb (is_cont b3) then decode_ignore r2
                  else
                    match r3 with
                    | [] => []
                    | b4 :: r4 =>
                        if is_cont b4
                        then ((b1 - 0xF0) * 262144 + (b2 - 0x80) * 4096
                              + (b3 - 0x80) * 64 + (b4 - 0x80))
                               :: decode_ignore r4
                        else decode_ignore r3
                    end
              end
        end
      else decode_ignore r1
  end.

End UTF8.

(** ** Frame codec *)

Definition start_marker : list Z := [0xAA; 0x55; 0xAA; 0x55].

(** [n.to_bytes(2, 'little')]. *)
Definition to_bytes_2_little (n : Z) : result (list Z) :=
  if (0 <=? n) && (n <? 65536)
  then Returns [Z.land n 0xFF; Z.land (Z.shiftr n 8) 0xFF]
  else Raises OverflowError.

(** The inner loop of [text_to_bits]:
    [for i in range(7, -1, -1): bits.append((byte_val >> i) & 1)]. *)
Definition byte_bits (byte_val : Z) : list Z :=
  map (fun i => Z.land (Z.shiftr byte_val i) 1) (py_range 7 (-1) (-1)).

Definition text_to_bits (text : list Z) : result (list Z) :=
  match UTF8.encode text with
  | None => Returns []                      (* except UnicodeEncodeError *)
  | Some text_bytes =>
      let data_length := len text_bytes in
      length_bytes <- to_bytes_2_little data_length ;;
      let full_data := start_marker ++ length_bytes ++ text_bytes in
      Returns (flat_map byte_bits full_data)
  end.

(** The byte-packing loop of [bits_to_text]:
    [for i in range(0, len(bits) - 7, 8): if i + 8 <= len(bits): ...]. *)
Definition pack_byte (bits : list Z) (i : Z) : Z :=
  fold_left (fun byte_val j => Z.lor (Z.shiftl byte_val 1) (nth (Z.to_nat (i + j)) bits 0))
            (py_range 0 8 1) 0.

Definition pack_bits (bits : list Z) : list Z :=
  map (pack_byte bits)
      (filter (fun i => i + 8 <=? len bits) (py_range 0 (len bits - 7) 8)).

(** The marker search: the first [i] in [range(len(bytes_data) - 3)] with
    [bytes_data[i:i+4] == start_marker]; [start_pos] is [i + 4], or [-1]. *)
Definition find_start_pos (bytes_data : list Z) : Z :=
  match find (fun i => list_eqb (slice bytes_data i (i + 4)) start_marker)
             (py_range 0 (len bytes_data - 3) 1) with
  | Some i => i + 4
  | None => -1
  end.

(** [bytes(l)]: every element must be in [range(256)]. *)
Definition to_bytes (l : list Z) : result (list Z) :=
  if forallb (fun b => (0 <=? b) && (b <? 256)) l then Returns l
  else Raises ValueError.

Definition bits_to_text (bits : list Z) : result (list Z) :=
  if len bits <? 48 then Returns []
  else
    let bytes_data := pack_bits bits in
    let start_pos := find_start_pos bytes_data in
    if start_pos =? -1 then Returns []
    else if start_pos + 2 >=? len bytes_data then Returns []
    else
      lo <- index bytes_data start_pos ;;
      hi <- index bytes_data (start_pos + 1) ;;
      let data_length := lo + Z.shiftl hi 8 in
      let data_start := start_pos + 2 in
      let data_length :=
        if data_start + data_length >? len bytes_data
        then len bytes_data - data_start
        else data_length in
      text_bytes <- to_bytes (slice bytes_data data_start (data_start + data_length)) ;;
      Returns (UTF8.decode_ignore text_bytes).

(** ** Modem configuration *)

(** The attributes set by [__init__]. [bit_duration] is kept equal to
    [sample_rate / baud_rate] by the constructor and by every setter of the
    settings menu, so it is a function of the two. *)
Record DialupModem : Type := {
  sample_rate : Z;
  baud_rate : Z;
  freq_0 : Z;
  freq_1 : Z
}.

Definition default_modem : DialupModem :=
  {| sample_rate := 8000; baud_rate := 300; freq_0 := 1070; freq_1 := 1270 |}.

(** [int(a / b)]: true division followed by truncation toward zero. The
    float quotient of two ints below [2^53] truncates to the integer
    quotient. *)
Definition int_div (a b : Z) : Z := Z.quot a b.

(** [int(self.bit_duration)], the number of samples synthesized per bit. *)
Definition encoder_samples_per_bit (m : DialupModem) : Z :=
  int_div (sample_rate m) (baud_rate m).

(** [samples_per_bit = int(sample_rate / self.baud_rate)] in the decoder,
    from the sample rate of the file. *)
Definition decoder_samples_per_bit (m : DialupModem) (file_rate : Z) : Z :=
  int_div file_rate (baud_rate m).

(** ** numpy *)

Definition threshold : R := (1 / 100)%R.
Definition amplitude : R := (8 / 10)%R.

(** [np.linspace(start, stop, n)] with the end point included: [n] evenly
    spaced points, the last one set to [stop]. *)
Definition linspace_n (start stop : R) (n : nat) : list R :=
  match n with
  | O => []
  | S O => [start]
  | S n' =>
      let step := ((stop - start) / INR n')%R in
      map (fun k => (INR k * step + start)%R) (seq 0 n') ++ [stop]
  end.

Definition linspace (start stop : R) (num : Z) : result (list R) :=
  if num <? 0 then Raises ValueError
  else Returns (linspace_n start stop (Z.to_nat num)).

Definition np_zeros (n : Z) : result (list R) :=
  if n <? 0 then Raises ValueError
  else Returns (repeat 0%R (Z.to_nat n)).

(** Element-wise product of two arrays of the same shape. *)
Fixpoint np_mul (a b : list R) : list R :=
  match a, b with
  | x :: a', y :: b' => (x * y)%R :: np_mul a' b'
  | _, _ => []
  end.

Definition np_sum (a : list R) : R := fold_right Rplus 0%R a.

(** ** Waveform synthesizer *)

Definition bit_freq (m : DialupModem) (bit : Z) : Z :=
  if bit =? 1 then freq_1 m else freq_0 m.

(** The body of the loop of [encode_to_audio] for one bit;
    [1/self.baud_rate] divides by zero when the baud rate is 0. *)
Definition bit_signal (m : DialupModem) (bit : Z) : result (list R) :=
  let freq := bit_freq m bit in
  if baud_rate m =? 0 then Raises ZeroDivisionError
  else
    t <- linspace 0 (1 / IZR (baud_rate m)) (encoder_samples_per_bit m) ;;
    Returns (map (fun x => (amplitude * sin (2 * PI * IZR freq * x))%R) t).

Fixpoint extend_bit_signals (m : DialupModem) (bits : list Z) : result (list R) :=
  match bits with
  | [] => Returns []
  | bit :: rest =>
      s <- bit_signal m bit ;;
      r <- extend_bit_signals m rest ;;
      Returns (s ++ r)
  end.

(** [int(0.1 * self.sample_rate)]: for a non-negative rate the float
    product truncates to the integer quotient by 10. *)
Definition silence_duration (m : DialupModem) : Z := Z.quot (sample_rate m) 10.

(** [encode_to_audio] up to the array handed to the WAV writer: [None] is
    the [return False] of the empty-bits guard, [Some audio_data] the array
    written before [return True]. *)
Definition encode_to_audio (m : DialupModem) (text : list Z) : result (option (list R)) :=
  bits <- text_to_bits text ;;
  match bits with
  | [] => Returns None
  | _ :: _ =>
      silence <- np_zeros (silence_duration m) ;;
      tones <- extend_bit_signals m bits ;;
      Returns (Some (silence ++ tones ++ silence))
  end.

(** ** Tone detector *)

Definition correlate_with_frequency (signal : list R) (freq : Z) (rate : Z) : R :=
  let t := linspace_n 0 (INR (length signal) / IZR rate) (length signal) in
  let reference_sin := map (fun x => sin (2 * PI * IZR freq * x)) t in
  let reference_cos := map (fun x => cos (2 * PI * IZR freq * x)) t in
  let corr_sin := np_sum (np_mul signal reference_sin) in
  let corr_cos := np_sum (np_mul signal reference_cos) in
  (corr_sin ^ 2 + corr_cos ^ 2)%R.

(** ** Signal demodulator *)

Definition exceeds_threshold (audio_data : list R) (i : Z) : bool :=
  if Rgt_dec (Rabs (nth (Z.to_nat i) audio_data 0%R)) threshold then true else false.

(** The silence-skipping loop: [start_idx]. *)
Definition find_start_idx (audio_data : list R) (samples_per_bit : Z) : Z :=
  match find (exceeds_threshold audio_data) (py_range 0 (len audio_data) 1) with
  | Some i => Z.max 0 (i - samples_per_bit / 4)
  | None => 0
  end.

(** The decision of one block. *)
Definition decide_bit (m : DialupModem) (rate : Z) (segment : list R) : Z :=
  let power_0 := correlate_with_frequency segment (freq_0 m) rate in
  let power_1 := correlate_with_frequency segment (freq_1 m) rate in
  if Rgt_dec power_1 power_0 then 1 else 0.

(** The block loop over the indices of [range(0, total - spb, spb)], with
    its [break] on a short segment. *)
Fixpoint demodulate_loop (m : DialupModem) (rate samples_per_bit : Z)
         (audio_data : list R) (idxs : list Z) : list Z :=
  match idxs with
  | [] => []
  | i :: rest =>
      let segment := slice audio_data i (i + samples_per_bit) in
      if len segment <? samples_per_bit then []
      else decide_bit m rate segment
             :: demodulate_loop m rate samples_per_bit audio_data rest
  end.

(** The sample array of [decode_from_audio] after the silence is cut. *)
Definition aligned_audio (m : DialupModem) (rate : Z) (audio_data : list R) : list R :=
  let samples_per_bit := decoder_samples_per_bit m rate in
  skipn (Z.to_nat (find_start_idx audio_data samples_per_bit)) audio_data.

(** The part of [decode_from_audio] that produces [bits]. Reading the file
    and scaling its samples to floats belong to the WAV collaborator: [rate]
    and [audio_data] are the sample rate of the file and its samples after
    normalisation. *)
Definition demodulate (m : DialupModem) (rate : Z) (audio_data : list R) : result (list Z) :=
  if baud_rate m =? 0 then Raises ZeroDivisionError
  else
    let samples_per_bit := decoder_samples_per_bit m rate in
    let audio_data := aligned_audio m rate audio_data in
    let total_samples := len audio_data in
    if samples_per_bit =? 0 then Raises ValueError
    else Returns (demodulate_loop m rate samples_per_bit audio_data
                    (py_range 0 (total_samples - samples_per_bit) samples_per_bit)).

(** [decode_from_audio]: every exception of the body is caught and turned
    into the empty string. *)
Definition decode_from_audio (m : DialupModem) (rate : Z) (audio_data : list R) : list Z :=
  match bits <- demodulate m rate audio_data ;; bits_to_text bits with
  | Returns decoded_text => decoded_text
  | Raises _ => []
  end.

(** ** Vocabulary of the statements *)

Definition is_bit (b : Z) : Prop := b = 0 \/ b = 1.

Definition is_byte (b : Z) : Prop := 0 <= b < 256.

(** The eight binary digits of a byte, most significant first. *)
Definition msb_first (b : Z) : list Z :=
  map (fun k => (b / 2 ^ k) mod 2) [7; 6; 5; 4; 3; 2; 1; 0].

(** The wire format of a payload: marker, little-endian 16-bit length,
    payload bytes. *)
Definition frame_bytes (payload : list Z) : list Z :=
  [0xAA; 0x55; 0xAA; 0x55] ++ [len payload mod 256; len payload / 256] ++ payload.

(** Some four consecutive bytes are the start marker. *)
Fixpoint has_marker_window (bytes_data : list Z) : bool :=
  match bytes_data with
  | a :: ((b :: c :: d :: _) as tl) =>
      ((a =? 0xAA) && (b =? 0x55) && (c =? 0xAA) && (d =? 0x55))
      || has_marker_window tl
  | _ => false
  end.

Definition prefix_of (p s : list Z) : Prop := exists t, s = p ++ t.

(** The shape of the UTF-8 encoding of one scalar value. *)
Inductive char_shape (c : Z) : list Z -> Prop :=
| shape1 : 0 <= c < 0x80 -> char_shape c [c]
| shape2 : 0x80 <= c < 0x800 ->
    char_shape c [0xC0 + c / 64; 0x80 + c mod 64]
| shape3 : 0x800 <= c < 0x10000 -> ~ (0xD800 <= c <= 0xDFFF) ->
    char_shape c [0xE0 + c / 4096; 0x80 + (c / 64) mod 64; 0x80 + c mod 64]
| shape4 : 0x10000 <= c < 0x110000 ->
    char_shape c [0xF0 + c / 262144; 0x80 + (c / 4096) mod 64;
                  0x80 + (c / 64) mod 64; 0x80 + c mod 64].

(** [n] is an integer nearest to the ratio [a / b], for [0 < b]. *)
Definition is_nearest_integer (a b n : Z) : Prop := 2 * Z.abs (n * b - a) <= b.

(** A waveform of zero samples only. *)
Definition silent (audio_data : list R) : Prop :=
  Forall (fun x => x = 0%R) audio_data.

Fixpoint dot (a b : list R) : R :=
  match a, b with
  | x :: a', y :: b' => (x * y + dot a' b')%R
  | _, _ => 0%R
  end.

(** The [n] sample times of a segment of [n] samples at [rate] Hz as the
    detector lays them out: evenly spaced from [0] to [n / rate] (the single
    time of a one-sample segment is [0]). *)
Definition time_axis (n : nat) (rate : Z) : list R :=
  map (fun k => (INR k * (INR n / IZR rate) / INR (n - 1))%R) (seq 0 n).

(** Block [k] of the demodulator's walk. *)
Definition block (m : DialupModem) (rate : Z) (audio_data : list R) (k : nat) : list R :=
  let samples_per_bit := decoder_samples_per_bit m rate in
  slice (aligned_audio m rate audio_data)
        (Z.of_nat k * samples_per_bit)
        (Z.of_nat k * samples_per_bit + samples_per_bit).

(** Bit [k] is 1 exactly when the mark score of block [k] is strictly the
    greater one. *)
Definition decided_by_scores (m : DialupModem) (rate : Z) (audio_data : list R)
           (bits : list Z) : Prop :=
  forall k, (k < length bits)%nat ->
    let power_0 := correlate_with_frequency (block m rate audio_data k) (freq_0 m) rate in
    let power_1 := correlate_with_frequency (block m rate audio_data k) (freq_1 m) rate in
    (nth k bits 0 = 1 <-> (power_1 > power_0)%R)
    /\ (nth k bits 0 = 0 <-> ~ (power_1 > power_0)%R)
    /\ (power_1 = power_0 -> nth k bits 0 = 0).

(** ** Configurations used in the examples *)

(** One sample per bit. *)
Definition one_sample_modem : DialupModem :=
  {| sample_rate := 8000; baud_rate := 8000; freq_0 := 1070; freq_1 := 1270 |}.

(** Fewer samples per second than bits per second. *)
Definition starved_modem : DialupModem :=
  {| sample_rate := 100; baud_rate := 300; freq_0 := 1070; freq_1 := 1270 |}.

(** Two samples per bit, tones at a half and a quarter of the sample rate:
    the reference waves take the values 0, 1 and -1 only, so the scores of
    a block are exact. *)
Definition square_modem : DialupModem :=
  {| sample_rate := 4; baud_rate := 2; freq_0 := 1; freq_1 := 2 |}.

Definition square_block (bit : Z) : list R :=
  if bit =? 1 then [1%R; 1%R] else [0%R; 0%R].

(** One block per bit and a closing block of silence. *)
Definition square_wave (bits : list Z) : list R :=
  flat_map square_block bits ++ [0%R; 0%R].

(** The 56 bits of the frame of the text ["A"]. *)
Definition frame_bits_A : list Z :=
  [1; 0; 1; 0; 1; 0; 1; 0;  0; 1; 0; 1; 0; 1; 0; 1;
   1; 0; 1; 0; 1; 0; 1; 0;  0; 1; 0; 1; 0; 1; 0; 1;
   0; 0; 0; 0; 0; 0; 0; 1;  0; 0; 0; 0; 0; 0; 0; 0;
   0; 1; 0; 0; 0; 0; 0; 1].

(** ** Constructor and settings menu *)

(** The whole state of a [DialupModem] object: the configuration read by the
    codec, the stored [bit_duration] and the debug flag. [__init__] sets
    [bit_duration] to [sample_rate / baud_rate] and the flag to [False]. *)
Record ModemState : Type := {
  settings : DialupModem;
  bit_duration : R;
  debug_mode : bool
}.

(** [settings_menu] on the stripped menu choice and on what
    [int(input(...))] gives for the value typed next: [Some n], or [None]
    for the [ValueError] that the menu catches. Only [ValueError] is caught:
    the division of choice 1 raises when the baud rate is 0. *)
Definition settings_menu (modem : ModemState) (choice : list Z)
           (entry : option Z) : result ModemState :=
  let cfg := settings modem in
  if list_eqb choice [49] then
    match entry with
    | Some new_rate =>
        if new_rate >? 0 then
          if baud_rate cfg =? 0 then Raises ZeroDivisionError
          else Returns {| settings := {| sample_rate := new_rate;
                                         baud_rate := baud_rate cfg;
                                         freq_0 := freq_0 cfg;
                                         freq_1 := freq_1 cfg |};
                          bit_duration := (IZR new_rate / IZR (baud_rate cfg))%R;
                          debug_mode := debug_mode modem |}
        else Returns modem
    | None => Returns modem
    end
  else if list_eqb choice [50] then
    match entry with
    | Some new_baud =>
        if new_baud >? 0 then
          Returns {| settings := {| sample_rate := sample_rate cfg;
                                    baud_rate := new_baud;
                                    freq_0 := freq_0 cfg;
                                    freq_1 := freq_1 cfg |};
                     bit_duration := (IZR (sample_rate cfg) / IZR new_baud)%R;
                     debug_mode := debug_mode modem |}
        else Returns modem
    | None => Returns modem
    end
  else if list_eqb choice [51] then
    Returns {| settings := cfg;
               bit_duration := bit_duration modem;
               debug_mode := negb (debug_mode modem) |}
  else if list_eqb choice [52] then
    Returns {| settings := {| sample_rate := 8000;
                              baud_rate := 300;
                              freq_0 := freq_0 cfg;
                              freq_1 := freq_1 cfg |};
               bit_duration := (IZR 8000 / IZR 300)%R;
               debug_mode := false |}
  else Returns modem.

(** Successive visits of the settings menu, as the main loop makes them. *)
Fixpoint settings_session (modem : ModemState)
         (visits : list (list Z * option Z)) : result ModemState :=
  match visits with
  | [] => Returns modem
  | (choice, entry) :: rest =>
      modem' <- settings_menu modem choice entry ;;
      settings_session modem' rest
  end.

(** The state that the codec relies on: positive rates, the Bell 103 tones,
    and a stored [bit_duration] equal to the ratio of the two rates. *)
Definition consistent (modem : ModemState) : Prop :=
  0 < sample_rate (settings modem)
  /\ 0 < baud_rate (settings modem)
  /\ freq_0 (settings modem) = 1070
  /\ freq_1 (settings modem) = 1270
  /\ bit_duration modem
     = (IZR (sample_rate (settings modem)) / IZR (baud_rate (settings modem)))%R.

(** ** More vocabulary *)

(** A sample that the silence-skipping loop passes over. *)
Definition quiet (x : R) : Prop := (Rabs x <= threshold)%R.

(** ** Tones as the demodulator cuts them *)

(** The samples that the synthesizer appends for one bit. *)
Definition tone (m : DialupModem) (bit : Z) : list R :=
  map (fun x => (amplitude * sin (2 * PI * IZR (bit_freq m bit) * x))%R)
      (linspace_n 0 (1 / IZR (baud_rate m)) (Z.to_nat (encoder_samples_per_bit m))).

(** What a bit period of the waveform can hold: silence, or one of the two
    tones. *)
Definition segments (m : DialupModem) : list (list R) :=
  [repeat 0%R (Z.to_nat (encoder_samples_per_bit m)); tone m 0; tone m 1].

(** The [n] samples found [shift] samples into three consecutive periods. *)
Definition window (shift n : nat) (before current after : list R) : list R :=
  firstn n (skipn shift (before ++ current ++ after)).

(** The shift of the demodulator's blocks against the bit periods, counted
    from the start of the period before: the first loud sample of the first
    tone is at index [first_loud], and the alignment backs off by a quarter
    of a block. *)
Definition block_shift (m : DialupModem) (first_loud : nat) : nat :=
  let n := Z.to_nat (encoder_samples_per_bit m) in
  (n + first_loud - n / 4)%nat.

(** The tone detector tells the two tones apart in every block that the
    demodulator can cut from a synthesized waveform: the tone of a bit,
    shifted against its period, with silence or any tone before and after,
    is decided as that bit. *)
Definition discriminates (m : DialupModem) (first_loud : nat) : Prop :=
  forall before after bit,
    In before (segments m) -> In after (segments m) -> is_bit bit ->
    decide_bit m (sample_rate m)
      (window (block_shift m first_loud)
              (Z.to_nat (encoder_samples_per_bit m))
              before (tone m bit) after)
    = bit.

(** Four samples per bit at 160 Hz and 40 baud, tones of 20 and 30 Hz: the
    sample times are multiples of 1/120 s, the phases multiples of pi/3 and
    pi/2. *)
Definition quad_modem : DialupModem :=
  {| sample_rate := 160; baud_rate := 40; freq_0 := 20; freq_1 := 30 |}.

(** Two samples per bit at 800 Hz and 400 baud, tones of 50 and 100 Hz,
    both below half the sample rate. *)
Definition duo_modem : DialupModem :=
  {| sample_rate := 800; baud_rate := 400; freq_0 := 50; freq_1 := 100 |}.

(** * Proofs *)

(** ** Tactics *)

Ltac zdm := Z.div_mod_to_equations; lia.

(** Decide every integer comparison of the goal from the hypotheses. *)
Ltac settle_cmp :=
  repeat match goal with
  | |- context [?a <? ?b] =>
      first [ replace (a <? b) with true by (symmetry; apply Z.ltb_lt; zdm)
            | replace (a <? b) with false by (symmetry; apply Z.ltb_ge; zdm) ]
  | |- context [?a <=? ?b] =>
      first [ replace (a <=? b) with true by (symmetry; apply Z.leb_le; zdm)
            | replace (a <=? b) with false by (symmetry; apply Z.leb_gt; zdm) ]
  | |- context [?a =? ?b] =>
      first [ replace (a =? b) with true by (symmetry; apply Z.eqb_eq; zdm)
            | replace (a =? b) with false by (symmetry; apply Z.eqb_neq; zdm) ]
  end.

(** ** Ranges, slices and lists *)

Lemma py_range_up start stop step :
  0 < step ->
  py_range start stop step
  = map (fun k => start + Z.of_nat k * step)
        (seq 0 (Z.to_nat ((stop - start + step - 1) / step))).
Proof.
  intros H. unfold py_range.
  destruct (Z.ltb_spec 0 step); [reflexivity | lia].
Qed.

Lemma py_range_0_8_1 : py_range 0 8 1 = [0; 1; 2; 3; 4; 5; 6; 7].
Proof. reflexivity. Qed.

Lemma py_range_7_down : py_range 7 (-1) (-1) = [7; 6; 5; 4; 3; 2; 1; 0].
Proof. reflexivity. Qed.

Lemma py_range_0_n_1 n :
  py_range 0 n 1 = map Z.of_nat (seq 0 (Z.to_nat n)).
Proof.
  rewrite py_range_up by lia.
  replace ((n - 0 + 1 - 1) / 1) with n by (rewrite Z.div_1_r; lia).
  apply map_ext. intros k. lia.
Qed.

Lemma py_range_blocks total spb :
  0 < spb ->
  py_range 0 (total - spb) spb
  = map (fun k => Z.of_nat k * spb) (seq 0 (Z.to_nat ((total - 1) / spb))).
Proof.
  intros H. rewrite py_range_up by assumption.
  replace (total - spb - 0 + spb - 1) with (total - 1) by lia.
  apply map_ext. intros k. lia.
Qed.

Lemma block_index_bound total spb k :
  0 < spb -> (k < Z.to_nat ((total - 1) / spb))%nat ->
  Z.of_nat k * spb + spb < total.
Proof.
  intros Hspb Hk.
  assert (Z.of_nat k + 1 <= (total - 1) / spb) by lia.
  assert (spb * ((total - 1) / spb) <= total - 1)
    by (apply Z.mul_div_le; lia).
  nia.
Qed.

Lemma slice_split {A} (l : list A) (i n : nat) (w : list A) :
  firstn n (skipn i l) = w -> length w = n ->
  l = firstn i l ++ w ++ skipn (n + i) l.
Proof.
  intros H Hn. rewrite <- skipn_skipn, <- H, firstn_skipn, firstn_skipn.
  reflexivity.
Qed.

Lemma slice_length {A} (l : list A) a b :
  0 <= a -> a <= b -> b <= len l -> len (slice l a b) = b - a.
Proof.
  intros Ha Hab Hb. unfold slice, len in *.
  rewrite length_firstn, length_skipn. lia.
Qed.

Lemma Forall_firstn_skipn {A} (P : A -> Prop) n l :
  Forall P l -> Forall P (firstn n l) /\ Forall P (skipn n l).
Proof. intros H. apply Forall_app. rewrite firstn_skipn. exact H. Qed.

Lemma nth_map_seq {A} (f : nat -> A) n k d :
  (k < n)%nat -> nth k (map f (seq 0 n)) d = f k.
Proof.
  intros Hk. rewrite (nth_indep _ d (f O)) by (rewrite length_map, length_seq; exact Hk).
  rewrite map_nth, seq_nth by exact Hk. reflexivity.
Qed.

Lemma list_eqb_eq l1 l2 : list_eqb l1 l2 = true <-> l1 = l2.
Proof.
  revert l2. induction l1 as [|x l1 IH]; intros [|y l2]; cbn [list_eqb];
    split; try congruence; try discriminate.
  - intros H. apply andb_true_iff in H. destruct H as [Hx Hl].
    apply Z.eqb_eq in Hx. apply IH in Hl. congruence.
  - intros [= -> ->]. rewrite Z.eqb_refl. apply IH. reflexivity.
Qed.

Lemma len_repeat {A} (x : A) n : 0 <= n -> len (repeat x (Z.to_nat n)) = n.
Proof. intros H. unfold len. rewrite repeat_length. lia. Qed.

Lemma index_nth_error l i v :
  nth_error l (Z.to_nat i) = Some v -> index l i = Returns v.
Proof. intros H. unfold index. rewrite H. reflexivity. Qed.

(** ** The UTF-8 codec *)

Lemma encode_char_shape c bs :
  UTF8.encode_char c = Some bs -> char_shape c bs.
Proof.
  unfold UTF8.encode_char, UTF8.is_surrogate.
  destruct (Z.ltb_spec c 0); [discriminate|].
  destruct (Z.ltb_spec c 0x80); [intros [= <-]; constructor; lia|].
  destruct (Z.ltb_spec c 0x800); [intros [= <-]; constructor; lia|].
  destruct (Z.ltb_spec c 0x10000).
  - destruct (Z.leb_spec 0xD800 c); destruct (Z.leb_spec c 0xDFFF); cbn [andb];
      try discriminate; intros [= <-]; constructor; lia.
  - destruct (Z.ltb_spec c 0x110000); [intros [= <-]; constructor; lia|discriminate].
Qed.

Lemma decode_encode_char c bs rest :
  UTF8.encode_char c = Some bs ->
  UTF8.decode_ignore (bs ++ rest) = c :: UTF8.decode_ignore rest.
Proof.
  intros H. apply encode_char_shape in H.
  destruct H; cbn [app UTF8.decode_ignore];
    unfold UTF8.bad2_of3, UTF8.bad2_of4, UTF8.is_cont; settle_cmp;
    cbn [andb orb negb];
    repeat match goal with
    | |- context [if ?a <? ?b then _ else _] => destruct (Z.ltb_spec a b)
    end; settle_cmp; cbn [andb orb negb]; f_equal; zdm.
Qed.

Lemma encode_char_bytes c bs :
  UTF8.encode_char c = Some bs -> Forall (fun b => 0 <= b < 256) bs.
Proof.
  intros H. apply encode_char_shape in H.
  destruct H; repeat constructor; zdm.
Qed.

Lemma decode_cut_char c bs k :
  UTF8.encode_char c = Some bs -> (k < length bs)%nat ->
  UTF8.decode_ignore (firstn k bs) = [].
Proof.
  intros H. apply encode_char_shape in H.
  destruct H; intros Hk; cbn [length] in Hk;
    do 4 (try (destruct k as [|k]; [|try lia]));
    cbn [firstn UTF8.decode_ignore]; try reflexivity;
    unfold UTF8.bad2_of3, UTF8.bad2_of4, UTF8.is_cont; settle_cmp;
    cbn [andb orb negb];
    repeat match goal with
    | |- context [if ?a <? ?b then _ else _] => destruct (Z.ltb_spec a b)
    end; settle_cmp; cbn [andb orb negb]; try reflexivity.
Qed.

Lemma encode_char_nonempty c bs : UTF8.encode_char c = Some bs -> bs <> [].
Proof. intros H. apply encode_char_shape in H. destruct H; discriminate. Qed.

Lemma encode_cons_inv c s b :
  UTF8.encode (c :: s) = Some b ->
  exists bs rest, UTF8.encode_char c = Some bs /\ UTF8.encode s = Some rest
                  /\ b = bs ++ rest.
Proof.
  cbn [UTF8.encode].
  destruct (UTF8.encode_char c) as [bs|]; [|discriminate].
  destruct (UTF8.encode s) as [rest|]; [|discriminate].
  intros [= <-]. eauto.
Qed.

Lemma decode_encode s : forall b,
  UTF8.encode s = Some b -> UTF8.decode_ignore b = s.
Proof.
  induction s as [|c s IH]; intros b H.
  - injection H as <-. reflexivity.
  - apply encode_cons_inv in H. destruct H as (bs & rest & Hc & Hs & ->).
    rewrite (decode_encode_char _ _ _ Hc), (IH _ Hs). reflexivity.
Qed.

Lemma encode_bytes s : forall b,
  UTF8.encode s = Some b -> Forall is_byte b.
Proof.
  induction s as [|c s IH]; intros b H.
  - injection H as <-. constructor.
  - apply encode_cons_inv in H. destruct H as (bs & rest & Hc & Hs & ->).
    apply Forall_app. split; [exact (encode_char_bytes _ _ Hc) | eauto].
Qed.

Lemma encode_nil_inv s : UTF8.encode s = Some [] -> s = [].
Proof.
  destruct s as [|c s]; [reflexivity|]. intros H.
  apply encode_cons_inv in H. destruct H as (bs & rest & Hc & _ & E).
  apply encode_char_nonempty in Hc. destruct bs; [congruence | discriminate].
Qed.

Lemma decode_cut_prefix s : forall b k,
  UTF8.encode s = Some b -> prefix_of (UTF8.decode_ignore (firstn k b)) s.
Proof.
  induction s as [|c s IH]; intros b k H.
  - injection H as <-. rewrite firstn_nil. exists []. reflexivity.
  - apply encode_cons_inv in H. destruct H as (bs & rest & Hc & Hs & ->).
    rewrite firstn_app.
    destruct (Nat.lt_ge_cases k (length bs)) as [Hk|Hk].
    + replace (k - length bs)%nat with O by lia. cbn [firstn].
      rewrite app_nil_r, (decode_cut_char _ _ _ Hc Hk).
      exists (c :: s). reflexivity.
    + rewrite firstn_all2 by lia. rewrite (decode_encode_char _ _ _ Hc).
      destruct (IH _ (k - length bs)%nat Hs) as [t Ht].
      exists t. cbn [app]. congruence.
Qed.

Lemma encode_ascii_repeat c n :
  0 <= c < 0x80 -> UTF8.encode (repeat c n) = Some (repeat c n).
Proof.
  intros Hc. induction n as [|n IH]; [reflexivity|].
  cbn [repeat UTF8.encode]. rewrite IH. unfold UTF8.encode_char.
  destruct (Z.ltb_spec c 0); [lia|]. destruct (Z.ltb_spec c 0x80); [|lia].
  reflexivity.
Qed.

(** ** Bits and bytes *)

Lemma pack_byte_ext bits bits' i i' :
  (forall j, 0 <= j < 8 ->
     nth (Z.to_nat (i + j)) bits 0 = nth (Z.to_nat (i' + j)) bits' 0) ->
  pack_byte bits i = pack_byte bits' i'.
Proof.
  intros H. unfold pack_byte. rewrite py_range_0_8_1. cbn [fold_left].
  rewrite (H 0), (H 1), (H 2), (H 3), (H 4), (H 5), (H 6), (H 7) by lia.
  reflexivity.
Qed.

Lemma pack_bits_chunks bits :
  pack_bits bits
  = map (fun k => pack_byte bits (8 * Z.of_nat k)) (seq 0 (length bits / 8)).
Proof.
  unfold pack_bits, len. rewrite py_range_up by lia.
  replace (Z.to_nat ((Z.of_nat (length bits) - 7 - 0 + 8 - 1) / 8))
    with (length bits / 8)%nat.
  2:{ replace (Z.of_nat (length bits) - 7 - 0 + 8 - 1) with (Z.of_nat (length bits)) by lia.
      change 8 with (Z.of_nat 8). rewrite <- Nat2Z.inj_div, Nat2Z.id. reflexivity. }
  rewrite forallb_filter_id.
  - rewrite map_map. apply map_ext. intros k. f_equal. lia.
  - apply forallb_forall. intros i Hi. apply in_map_iff in Hi.
    destruct Hi as [k [<- Hk]]. apply in_seq in Hk. apply Z.leb_le.
    assert (8 * (length bits / 8) <= length bits)%nat
      by (apply Nat.Div0.mul_div_le).
    lia.
Qed.

Lemma pack_bits_short bits : (length bits < 8)%nat -> pack_bits bits = [].
Proof.
  intros H. rewrite pack_bits_chunks. rewrite Nat.div_small by lia. reflexivity.
Qed.

Lemma pack_bits_length bits : length (pack_bits bits) = (length bits / 8)%nat.
Proof. rewrite pack_bits_chunks, length_map, length_seq. reflexivity. Qed.

Lemma pack_bits_app a b :
  (length a mod 8 = 0)%nat ->
  pack_bits (a ++ b) = pack_bits a ++ pack_bits b.
Proof.
  intros Ha. rewrite !pack_bits_chunks, length_app.
  assert (Hla : length a = (8 * (length a / 8))%nat).
  { pose proof (Nat.div_mod_eq (length a) 8). lia. }
  replace ((length a + length b) / 8)%nat
    with (length a / 8 + length b / 8)%nat.
  2:{ rewrite Hla at 2. rewrite Nat.mul_comm, Nat.div_add_l by lia. reflexivity. }
  rewrite seq_app, map_app. f_equal.
  - apply map_ext_in. intros k Hk. apply in_seq in Hk.
    apply pack_byte_ext. intros j Hj. apply app_nth1. lia.
  - cbn [Nat.add]. revert Hla. generalize (length a / 8)%nat as q. intros q Hla.
    assert (Hs : forall n s, seq (q + s) n = map (fun k => (q + k)%nat) (seq s n)).
    { induction n; intros s; cbn [seq map]; [reflexivity|].
      f_equal. rewrite <- IHn. f_equal. lia. }
    replace q with (q + 0)%nat at 1 by lia. rewrite Hs, !map_map.
    apply map_ext. intros k. apply pack_byte_ext. intros j Hj.
    rewrite app_nth2 by lia. f_equal. lia.
Qed.

Lemma byte_bits_length b : length (byte_bits b) = 8%nat.
Proof. reflexivity. Qed.

Lemma land_1_bit x : is_bit (Z.land x 1).
Proof.
  assert (H : Z.land x 1 = x mod 2) by (apply (Z.land_ones x 1); lia).
  unfold is_bit. rewrite H.
  pose proof (Z.mod_pos_bound x 2 ltac:(lia)). lia.
Qed.

Lemma byte_bits_bits b : Forall is_bit (byte_bits b).
Proof.
  unfold byte_bits. apply Forall_forall. intros x Hx.
  apply in_map_iff in Hx. destruct Hx as [i [<- _]]. apply land_1_bit.
Qed.

Lemma byte_bits_msb_first b : byte_bits b = msb_first b.
Proof.
  unfold byte_bits, msb_first. rewrite py_range_7_down.
  apply map_ext_in. intros i Hi.
  assert (0 <= i) by (cbn [In] in Hi; lia).
  rewrite Z.shiftr_div_pow2 by assumption.
  apply (Z.land_ones (b / 2 ^ i) 1). lia.
Qed.

Lemma flat_map_msb_first bs : flat_map byte_bits bs = flat_map msb_first bs.
Proof.
  induction bs as [|b bs IH]; [reflexivity|].
  cbn [flat_map]. rewrite byte_bits_msb_first, IH. reflexivity.
Qed.

Lemma all_bytes_check :
  forallb (fun n => list_eqb (pack_bits (byte_bits (Z.of_nat n))) [Z.of_nat n])
          (seq 0 256) = true.
Proof. vm_compute. reflexivity. Qed.

Lemma pack_byte_bits b : is_byte b -> pack_bits (byte_bits b) = [b].
Proof.
  intros Hb. pose proof all_bytes_check as H.
  rewrite forallb_forall in H. specialize (H (Z.to_nat b)).
  rewrite Z2Nat.id in H by (unfold is_byte in Hb; lia).
  apply list_eqb_eq, H, in_seq. unfold is_byte in Hb. lia.
Qed.

Lemma pack_flat_map_app bs tail :
  Forall is_byte bs ->
  pack_bits (flat_map byte_bits bs ++ tail) = bs ++ pack_bits tail.
Proof.
  induction 1 as [|b bs Hb _ IH]; [reflexivity|].
  cbn [flat_map]. rewrite <- app_assoc, pack_bits_app by reflexivity.
  rewrite pack_byte_bits, IH by assumption. reflexivity.
Qed.

Lemma flat_map_bits bs : Forall is_bit (flat_map byte_bits bs).
Proof.
  induction bs as [|b bs IH]; cbn [flat_map]; [constructor|].
  apply Forall_app. split; [apply byte_bits_bits | exact IH].
Qed.

Lemma flat_map_bits_length bs :
  length (flat_map byte_bits bs) = (8 * length bs)%nat.
Proof.
  induction bs as [|b bs IH]; cbn [flat_map length]; [reflexivity|].
  rewrite length_app, IH, byte_bits_length. lia.
Qed.

Lemma pack_firstn_flat_map bs k :
  Forall is_byte bs ->
  pack_bits (firstn k (flat_map byte_bits bs)) = firstn (k / 8) bs.
Proof.
  intros Hbs. revert k. induction Hbs as [|b bs Hb _ IH]; intros k.
  - cbn [flat_map]. rewrite !firstn_nil. reflexivity.
  - cbn [flat_map]. rewrite firstn_app, byte_bits_length.
    destruct (Nat.lt_ge_cases k 8) as [Hk|Hk].
    + replace (k - 8)%nat with O by lia. rewrite Nat.div_small by lia.
      cbn [firstn]. rewrite app_nil_r. apply pack_bits_short.
      rewrite length_firstn, byte_bits_length. lia.
    + rewrite firstn_all2 by (rewrite byte_bits_length; lia).
      rewrite pack_bits_app by reflexivity. rewrite pack_byte_bits, IH by assumption.
      replace k with (1 * 8 + (k - 8))%nat at 2 by lia.
      rewrite Nat.div_add_l by lia. reflexivity.
Qed.

Lemma lor_shiftl_bit x b :
  0 <= x -> is_bit b -> Z.lor (Z.shiftl x 1) b = 2 * x + b.
Proof.
  intros Hx [-> | ->].
  - rewrite Z.lor_0_r, Z.shiftl_mul_pow2 by lia. change (2 ^ 1) with 2. lia.
  - destruct x as [|p|p]; [reflexivity| reflexivity | lia].
Qed.

Lemma nth_bit bits n : Forall is_bit bits -> is_bit (nth n bits 0).
Proof.
  intros H. destruct (Nat.lt_ge_cases n (length bits)) as [Hn|Hn].
  - rewrite Forall_forall in H. apply H, nth_In, Hn.
  - rewrite nth_overflow by assumption. left. reflexivity.
Qed.

Lemma pack_fold_range bits i js :
  Forall is_bit bits ->
  forall acc n, 0 <= n -> 0 <= acc < 2 ^ n ->
  0 <= fold_left (fun byte_val j =>
                    Z.lor (Z.shiftl byte_val 1) (nth (Z.to_nat (i + j)) bits 0))
                 js acc < 2 ^ (n + len js).
Proof.
  intros H. induction js as [|j js IH]; intros acc n Hn Hacc.
  - cbn [fold_left]. unfold len. cbn [length]. rewrite Z.add_0_r. exact Hacc.
  - cbn [fold_left]. unfold len in *. cbn [length].
    replace (n + Z.of_nat (S (length js))) with ((n + 1) + Z.of_nat (length js)) by lia.
    apply IH; [lia|].
    rewrite lor_shiftl_bit by (try apply nth_bit; tauto).
    pose proof (nth_bit bits (Z.to_nat (i + j)) H) as Hb.
    rewrite Z.pow_add_r by lia. change (2 ^ 1) with 2.
    unfold is_bit in Hb. lia.
Qed.

Lemma pack_byte_range bits i : Forall is_bit bits -> is_byte (pack_byte bits i).
Proof.
  intros H. unfold pack_byte, is_byte.
  apply (pack_fold_range bits i (py_range 0 8 1) H 0 0); [lia | cbn; lia].
Qed.

Lemma pack_bits_bytes bits : Forall is_bit bits -> Forall is_byte (pack_bits bits).
Proof.
  intros H. rewrite pack_bits_chunks. apply Forall_forall. intros x Hx.
  apply in_map_iff in Hx. destruct Hx as [k [<- _]]. apply pack_byte_range, H.
Qed.

Lemma pack_bits_zero bits :
  Forall (fun b => b = 0) bits -> Forall (fun b => b = 0) (pack_bits bits).
Proof.
  intros H. rewrite pack_bits_chunks. apply Forall_forall. intros x Hx.
  apply in_map_iff in Hx. destruct Hx as [k [<- _]].
  assert (Hn : forall n, nth n bits 0 = 0).
  { intros n. destruct (Nat.lt_ge_cases n (length bits)).
    - rewrite Forall_forall in H. apply H, nth_In. assumption.
    - apply nth_overflow. assumption. }
  unfold pack_byte. rewrite py_range_0_8_1. cbn [fold_left].
  rewrite !Hn. reflexivity.
Qed.

Lemma to_bytes_ok l : Forall is_byte l -> to_bytes l = Returns l.
Proof.
  intros H. unfold to_bytes.
  replace (forallb _ l) with true; [reflexivity|].
  symmetry. apply forallb_forall. rewrite Forall_forall in H.
  intros x Hx. specialize (H x Hx). unfold is_byte in H.
  apply andb_true_iff. split; [apply Z.leb_le | apply Z.ltb_lt]; lia.
Qed.

Lemma to_bytes_2_little_ok n :
  0 <= n <= 65535 -> to_bytes_2_little n = Returns [n mod 256; n / 256].
Proof.
  intros H. unfold to_bytes_2_little.
  destruct (Z.leb_spec 0 n); [|lia]. destruct (Z.ltb_spec n 65536); [|lia].
  cbn [andb]. change 0xFF with (Z.ones 8).
  rewrite !Z.land_ones, Z.shiftr_div_pow2 by lia.
  change (2 ^ 8) with 256. f_equal. f_equal. f_equal.
  apply Z.mod_small. zdm.
Qed.

Lemma to_bytes_2_little_overflow n :
  65535 < n -> to_bytes_2_little n = Raises OverflowError.
Proof.
  intros H. unfold to_bytes_2_little.
  destruct (Z.ltb_spec n 65536); [lia|]. rewrite andb_false_r. reflexivity.
Qed.

(** ** Marker search *)

Lemma has_marker_window_cons a b c d tl :
  has_marker_window (a :: b :: c :: d :: tl)
  = ((a =? 0xAA) && (b =? 0x55) && (c =? 0xAA) && (d =? 0x55))
    || has_marker_window (b :: c :: d :: tl).
Proof. reflexivity. Qed.

Lemma has_marker_window_app pre post :
  has_marker_window (pre ++ start_marker ++ post) = true.
Proof.
  induction pre as [|a pre IH]; [reflexivity|].
  cbn [app]. remember (pre ++ start_marker ++ post) as tl eqn:E.
  destruct tl as [|b [|c [|d tl]]]; try discriminate IH.
  rewrite has_marker_window_cons, IH. apply orb_true_r.
Qed.

Lemma has_marker_window_split bytes_data :
  has_marker_window bytes_data = true ->
  exists pre post, bytes_data = pre ++ start_marker ++ post.
Proof.
  induction bytes_data as [|a l IH]; [discriminate|].
  destruct l as [|b [|c [|d l]]]; try discriminate.
  rewrite has_marker_window_cons. intros H. apply orb_true_iff in H.
  destruct H as [H|H].
  - repeat (apply andb_true_iff in H; destruct H as [H ?]).
    repeat match goal with E : (_ =? _) = true |- _ => apply Z.eqb_eq in E end.
    subst. exists [], l. reflexivity.
  - destruct (IH H) as (pre & post & E). exists (a :: pre), post.
    rewrite E. reflexivity.
Qed.

Lemma has_marker_window_iff bytes_data :
  has_marker_window bytes_data = true
  <-> exists pre post, bytes_data = pre ++ start_marker ++ post.
Proof.
  split; [apply has_marker_window_split|].
  intros (pre & post & ->). apply has_marker_window_app.
Qed.

Lemma find_start_pos_found bytes_data p :
  find_start_pos bytes_data = p -> p <> -1 ->
  4 <= p <= len bytes_data /\
  bytes_data = firstn (Z.to_nat (p - 4)) bytes_data ++ start_marker
               ++ skipn (Z.to_nat p) bytes_data.
Proof.
  unfold find_start_pos. rewrite py_range_0_n_1.
  destruct (find _ _) as [i|] eqn:E; [|intros <-; congruence].
  intros <- _. apply find_some in E. destruct E as [Hin Hi].
  apply in_map_iff in Hin. destruct Hin as [k [<- Hk]]. apply in_seq in Hk.
  apply list_eqb_eq in Hi. unfold slice in Hi.
  replace (Z.to_nat (Z.of_nat k + 4 - Z.of_nat k)) with 4%nat in Hi by lia.
  rewrite Nat2Z.id in Hi. unfold len in *. split; [lia|].
  replace (Z.to_nat (Z.of_nat k + 4 - 4)) with k by lia.
  replace (Z.to_nat (Z.of_nat k + 4)) with (4 + k)%nat by lia.
  apply slice_split; [exact Hi | reflexivity].
Qed.

Lemma find_start_pos_none bytes_data :
  has_marker_window bytes_data = false -> find_start_pos bytes_data = -1.
Proof.
  intros H. destruct (Z.eq_dec (find_start_pos bytes_data) (-1)) as [|Hne]; [assumption|].
  destruct (find_start_pos_found bytes_data _ eq_refl Hne) as [_ E].
  rewrite E, has_marker_window_app in H. discriminate.
Qed.

Lemma find_start_pos_marker rest : find_start_pos (start_marker ++ rest) = 4.
Proof.
  unfold find_start_pos. rewrite py_range_0_n_1.
  unfold len. rewrite length_app.
  replace (Z.to_nat (Z.of_nat (length start_marker + length rest) - 3))
    with (S (length rest)) by (cbn [length start_marker]; lia).
  reflexivity.
Qed.

Lemma no_marker_in_zeros bytes_data :
  Forall (fun b => b = 0) bytes_data -> has_marker_window bytes_data = false.
Proof.
  induction 1 as [|a l Ha Hl IH]; [reflexivity|].
  destruct l as [|b [|c [|d l]]]; try reflexivity.
  rewrite has_marker_window_cons, IH, Ha. reflexivity.
Qed.

(** ** Frames *)

Lemma text_to_bits_frame text payload :
  UTF8.encode text = Some payload -> len payload <= 65535 ->
  text_to_bits text = Returns (flat_map byte_bits (frame_bytes payload)).
Proof.
  intros He Hl. unfold text_to_bits. rewrite He.
  rewrite to_bytes_2_little_ok by (unfold len in *; lia). reflexivity.
Qed.

Lemma text_to_bits_nonempty text payload :
  UTF8.encode text = Some payload -> len payload <= 65535 ->
  exists b bits, text_to_bits text = Returns (b :: bits).
Proof.
  intros He Hl. rewrite (text_to_bits_frame _ _ He Hl).
  unfold frame_bytes, start_marker. cbn [app flat_map].
  change (byte_bits 170) with [1; 0; 1; 0; 1; 0; 1; 0]. cbn [app]. eauto.
Qed.

Lemma frame_bytes_ok payload :
  Forall is_byte payload -> len payload <= 65535 ->
  Forall is_byte (frame_bytes payload).
Proof.
  intros H Hl. unfold frame_bytes, start_marker.
  repeat (apply Forall_cons; [unfold is_byte, len in *; zdm|]). exact H.
Qed.

Lemma frame_length_field (payload : list Z) :
  0 <= len payload <= 65535 ->
  len payload mod 256 + 256 * (len payload / 256) = len payload.
Proof. intros _. zdm. Qed.

Lemma bits_to_text_at bits p lo hi :
  let bytes_data := pack_bits bits in
  let data := firstn (Z.to_nat (lo + 256 * hi))
                     (skipn (Z.to_nat (p + 2)) bytes_data) in
  find_start_pos bytes_data = p -> p <> -1 ->
  nth_error bytes_data (Z.to_nat p) = Some lo ->
  nth_error bytes_data (Z.to_nat (p + 1)) = Some hi ->
  Forall is_byte data ->
  bits_to_text bits = Returns (UTF8.decode_ignore data).
Proof.
  intros bytes_data data Hp Hne Hlo Hhi Hdata.
  destruct (find_start_pos_found _ _ Hp Hne) as [Hrange _].
  assert (Hlen : p + 2 <= len bytes_data).
  { assert (Z.to_nat (p + 1) < length bytes_data)%nat
      by (apply nth_error_Some; congruence).
    unfold len. lia. }
  assert (Hbits : 48 <= len bits).
  { unfold len in *. subst bytes_data. rewrite pack_bits_length in Hlen.
    pose proof (Nat.Div0.mul_div_le (length bits) 8). lia. }
  unfold bits_to_text.
  destruct (Z.ltb_spec (len bits) 48); [lia|].
  fold bytes_data. rewrite Hp.
  destruct (Z.eqb_spec p (-1)); [contradiction|].
  rewrite Z.geb_leb.
  destruct (Z.leb_spec (len bytes_data) (p + 2)) as [Hle|Hgt].
  - f_equal. subst data. rewrite skipn_all2 by (unfold len in *; lia).
    rewrite firstn_nil. reflexivity.
  - rewrite (index_nth_error _ _ _ Hlo), (index_nth_error _ _ _ Hhi).
    cbn [bind]. rewrite Z.shiftl_mul_pow2 by lia. change (2 ^ 8) with 256.
    rewrite Z.gtb_ltb.
    assert (E : slice bytes_data (p + 2)
                  (p + 2 + (if len bytes_data <? p + 2 + (lo + hi * 256)
                            then len bytes_data - (p + 2) else lo + hi * 256))
                = data).
    { unfold slice. subst data.
      destruct (Z.ltb_spec (len bytes_data) (p + 2 + (lo + hi * 256))) as [Hc|Hc].
      - rewrite !firstn_all2; [reflexivity | |];
          rewrite length_skipn; unfold len in *; lia.
      - f_equal. lia. }
    rewrite E, to_bytes_ok by assumption. reflexivity.
Qed.

(** Decoding of the packed bytes [marker, lo, hi, data] where the length
    field is that of [payload]: the text of the first [len payload] bytes of
    [data]. *)
Lemma bits_to_text_framed bits (payload data : list Z) :
  len payload <= 65535 ->
  pack_bits bits
  = start_marker ++ [len payload mod 256; len payload / 256] ++ data ->
  Forall is_byte (firstn (length payload) data) ->
  bits_to_text bits
  = Returns (UTF8.decode_ignore (firstn (length payload) data)).
Proof.
  intros Hl Hpack Hdata.
  pose proof (bits_to_text_at bits 4 (len payload mod 256) (len payload / 256)) as H.
  cbv zeta in H. rewrite Hpack in H.
  rewrite frame_length_field in H by (unfold len in *; lia).
  replace (Z.to_nat (len payload)) with (length payload) in H
    by (unfold len; lia).
  change (skipn (Z.to_nat (4 + 2))
            (start_marker ++ [len payload mod 256; len payload / 256] ++ data))
    with data in H.
  apply H; try reflexivity; try lia.
  - apply find_start_pos_marker.
  - exact Hdata.
Qed.

Lemma bits_to_text_no_marker bits :
  has_marker_window (pack_bits bits) = false -> bits_to_text bits = Returns [].
Proof.
  intros H. unfold bits_to_text. destruct (_ <? 48); [reflexivity|].
  rewrite (find_start_pos_none _ H). reflexivity.
Qed.

(** The frame codec inverts itself, whatever bits follow the frame. *)
Lemma frame_roundtrip text payload tail :
  UTF8.encode text = Some payload -> len payload <= 65535 ->
  bits_to_text (flat_map byte_bits (frame_bytes payload) ++ tail) = Returns text.
Proof.
  intros He Hl. pose proof (encode_bytes _ _ He) as Hb.
  rewrite (bits_to_text_framed _ payload (payload ++ pack_bits tail) Hl).
  - rewrite firstn_app, firstn_all, Nat.sub_diag, firstn_0, app_nil_r.
    rewrite (decode_encode _ _ He). reflexivity.
  - rewrite pack_flat_map_app by (apply frame_bytes_ok; assumption).
    unfold frame_bytes. rewrite <- !app_assoc. reflexivity.
  - rewrite firstn_app, firstn_all, Nat.sub_diag, firstn_0, app_nil_r.
    exact Hb.
Qed.

(** A frame cut after at least its marker and length field decodes to a
    prefix of the text. *)
Lemma frame_truncated text payload k :
  UTF8.encode text = Some payload -> len payload <= 65535 -> (48 <= k)%nat ->
  bits_to_text (firstn k (flat_map byte_bits (frame_bytes payload)))
  = Returns (UTF8.decode_ignore (firstn (k / 8 - 6) payload)).
Proof.
  intros He Hl Hk. pose proof (encode_bytes _ _ He) as Hb.
  assert (Hq : (6 <= k / 8)%nat).
  { change 6%nat with (48 / 8)%nat. apply Nat.Div0.div_le_mono. exact Hk. }
  rewrite (bits_to_text_framed _ payload (firstn (k / 8 - 6) payload) Hl).
  - rewrite firstn_firstn. f_equal. f_equal.
    destruct (Nat.le_ge_cases (length payload) (k / 8 - 6)).
    + rewrite Nat.min_l, firstn_all, firstn_all2 by lia. reflexivity.
    + rewrite Nat.min_r by lia. reflexivity.
  - rewrite pack_firstn_flat_map by (apply frame_bytes_ok; assumption).
    unfold frame_bytes.
    replace (k / 8)%nat with (4 + (2 + (k / 8 - 6)))%nat at 1 by lia.
    reflexivity.
  - apply Forall_firstn_skipn, Forall_firstn_skipn, Hb.
Qed.

(** ** Samples per bit *)

Lemma int_div_floor a b :
  0 <= a -> 0 < b -> int_div a b * b <= a < (int_div a b + 1) * b.
Proof.
  intros Ha Hb. unfold int_div. rewrite Z.quot_div_nonneg by lia. zdm.
Qed.

Lemma int_div_nonneg a b : 0 <= a -> 0 < b -> 0 <= int_div a b.
Proof.
  intros Ha Hb. unfold int_div. rewrite Z.quot_div_nonneg by lia.
  apply Z.div_pos; lia.
Qed.

(** ** Synthesizer *)

Lemma linspace_n_length start stop n : length (linspace_n start stop n) = n.
Proof.
  destruct n as [|[|n]]; [reflexivity | reflexivity |].
  cbn [linspace_n]. rewrite length_app, length_map, length_seq. cbn [length]. lia.
Qed.

Lemma linspace_n_SS start stop n :
  linspace_n start stop (S (S n))
  = map (fun k => (INR k * ((stop - start) / INR (S n)) + start)%R) (seq 0 (S n))
    ++ [stop].
Proof. reflexivity. Qed.

Lemma linspace_returns start stop num :
  0 <= num ->
  linspace start stop num = Returns (linspace_n start stop (Z.to_nat num)).
Proof.
  intros H. unfold linspace. destruct (Z.ltb_spec num 0); [lia | reflexivity].
Qed.

Lemma np_zeros_silent n :
  0 <= n -> exists z, np_zeros n = Returns z /\ silent z /\ len z = n.
Proof.
  intros H. unfold np_zeros. destruct (Z.ltb_spec n 0); [lia|].
  eexists. split; [reflexivity|]. split.
  - apply Forall_forall. intros x Hx. apply repeat_spec in Hx. exact Hx.
  - unfold len. rewrite repeat_length. lia.
Qed.

Lemma bit_signal_returns m bit :
  baud_rate m <> 0 -> 0 <= encoder_samples_per_bit m ->
  exists s, bit_signal m bit = Returns s
            /\ len s = encoder_samples_per_bit m.
Proof.
  intros Hb H. unfold bit_signal.
  destruct (Z.eqb_spec (baud_rate m) 0); [contradiction|].
  rewrite linspace_returns by assumption.
  cbn [bind]. eexists. split; [reflexivity|].
  unfold len. rewrite length_map, linspace_n_length. lia.
Qed.

Lemma extend_bit_signals_returns m bits :
  baud_rate m <> 0 -> 0 <= encoder_samples_per_bit m ->
  exists tones, extend_bit_signals m bits = Returns tones
                /\ len tones = len bits * encoder_samples_per_bit m.
Proof.
  intros Hb H. induction bits as [|bit bits [tones [E Hl]]].
  - exists []. split; [reflexivity | unfold len; cbn [length]; lia].
  - destruct (bit_signal_returns m bit Hb H) as [s [Es Hs]].
    exists (s ++ tones). cbn [extend_bit_signals]. rewrite Es, E. cbn [bind].
    split; [reflexivity|]. unfold len in *. rewrite length_app. cbn [length]. lia.
Qed.

Lemma bit_signal_single m bit :
  encoder_samples_per_bit m = 1 ->
  exists s, bit_signal m bit = Returns s /\ silent s.
Proof.
  intros H. unfold bit_signal.
  destruct (Z.eqb_spec (baud_rate m) 0) as [E|_].
  { unfold encoder_samples_per_bit, int_div in H. rewrite E in H.
    destruct (sample_rate m); discriminate H. }
  rewrite H. cbn.
  eexists. split; [reflexivity|]. constructor; [|constructor].
  rewrite Rmult_0_r, sin_0. lra.
Qed.

Lemma extend_bit_signals_single m bits :
  encoder_samples_per_bit m = 1 ->
  exists tones, extend_bit_signals m bits = Returns tones /\ silent tones.
Proof.
  intros H. induction bits as [|bit bits [tones [E Hs]]].
  - exists []. split; [reflexivity | constructor].
  - destruct (bit_signal_single m bit H) as [s [Es Hsil]].
    exists (s ++ tones). cbn [extend_bit_signals]. rewrite Es, E. cbn [bind].
    split; [reflexivity | apply Forall_app; split; assumption].
Qed.

(** With one sample per bit every tone is the single sample [sin 0]: the
    synthesized waveform is silence. *)
Lemma encode_single_sample_silent m text payload :
  UTF8.encode text = Some payload -> len payload <= 65535 ->
  encoder_samples_per_bit m = 1 -> 0 <= silence_duration m ->
  exists w, encode_to_audio m text = Returns (Some w) /\ silent w.
Proof.
  intros He Hl Hspb Hsil.
  destruct (text_to_bits_nonempty _ _ He Hl) as (b & bits & E).
  destruct (np_zeros_silent _ Hsil) as (z & Ez & Hz & _).
  destruct (extend_bit_signals_single m (b :: bits) Hspb) as (tones & Et & Ht).
  exists (z ++ tones ++ z). unfold encode_to_audio. rewrite E. cbn [bind].
  rewrite Ez. cbn [bind]. rewrite Et. cbn [bind].
  split; [reflexivity|]. repeat (apply Forall_app; split); assumption.
Qed.

(** ** Tone detector *)

Lemma np_sum_mul_silent a b : silent a -> np_sum (np_mul a b) = 0%R.
Proof.
  intros H. revert b. induction H as [|x a Hx _ IH]; intros [|y b];
    try reflexivity.
  cbn [np_mul np_sum fold_right]. fold (np_sum (np_mul a b)).
  rewrite IH, Hx. lra.
Qed.

Lemma np_sum_mul_dot a b : np_sum (np_mul a b) = dot a b.
Proof.
  revert b. induction a as [|x a IH]; intros [|y b]; try reflexivity.
  cbn [np_mul np_sum fold_right dot]. fold (np_sum (np_mul a b)).
  rewrite IH. reflexivity.
Qed.

Lemma linspace_time_axis n rate :
  linspace_n 0 (INR n / IZR rate) n = time_axis n rate.
Proof.
  unfold time_axis. destruct n as [|[|n]].
  - reflexivity.
  - cbn [linspace_n seq map]. f_equal. cbn [INR]. unfold Rdiv. ring.
  - rewrite linspace_n_SS. generalize (INR (S (S n)) / IZR rate)%R as stop.
    intros stop. replace (S (S n) - 1)%nat with (S n) by lia.
    rewrite (seq_S (S n) 0), map_app. cbn [map Nat.add].
    assert (Hp : INR (S n) <> 0%R) by (apply not_0_INR; lia).
    f_equal.
    + apply map_ext. intros k. field. exact Hp.
    + f_equal. field. exact Hp.
Qed.

Lemma correlate_silent signal freq rate :
  silent signal -> correlate_with_frequency signal freq rate = 0%R.
Proof.
  intros H. unfold correlate_with_frequency.
  rewrite !np_sum_mul_silent by assumption. lra.
Qed.

Lemma correlate_dot signal freq rate :
  let t := time_axis (length signal) rate in
  correlate_with_frequency signal freq rate
  = (dot signal (map (fun x => sin (2 * PI * IZR freq * x)) t) ^ 2
     + dot signal (map (fun x => cos (2 * PI * IZR freq * x)) t) ^ 2)%R.
Proof.
  intros t. unfold correlate_with_frequency.
  rewrite linspace_time_axis, !np_sum_mul_dot. reflexivity.
Qed.

Lemma correlate_nonneg signal freq rate :
  (0 <= correlate_with_frequency signal freq rate)%R.
Proof.
  unfold correlate_with_frequency.
  apply Rplus_le_le_0_compat; apply pow2_ge_0.
Qed.

(** ** Demodulator *)

Lemma silent_firstn_skipn audio n :
  silent audio -> silent (firstn n audio) /\ silent (skipn n audio).
Proof. apply Forall_firstn_skipn. Qed.

Lemma silent_slice audio a b : silent audio -> silent (slice audio a b).
Proof.
  intros H. unfold slice. apply silent_firstn_skipn, silent_firstn_skipn, H.
Qed.

Lemma find_start_idx_silent audio spb :
  silent audio -> find_start_idx audio spb = 0.
Proof.
  intros H. unfold find_start_idx.
  destruct (find _ _) as [i|] eqn:E; [|reflexivity].
  apply find_some in E. destruct E as [_ E]. unfold exceeds_threshold in E.
  assert (Hn : nth (Z.to_nat i) audio 0%R = 0%R).
  { destruct (Nat.lt_ge_cases (Z.to_nat i) (length audio)).
    - unfold silent in H. rewrite Forall_forall in H. apply H, nth_In. assumption.
    - apply nth_overflow. assumption. }
  rewrite Hn, Rabs_R0 in E. unfold threshold in E.
  destruct (Rgt_dec 0 (1 / 100)) as [Hgt|_]; [lra | discriminate].
Qed.

Section Demodulator.

Variable m : DialupModem.
Variable rate : Z.

Lemma decide_bit_silent segment :
  silent segment -> decide_bit m rate segment = 0.
Proof.
  intros H. unfold decide_bit. rewrite !correlate_silent by assumption.
  destruct (Rgt_dec 0 0) as [Hgt|_]; [lra | reflexivity].
Qed.

Lemma aligned_audio_silent audio :
  silent audio -> aligned_audio m rate audio = audio.
Proof.
  intros H. unfold aligned_audio. rewrite find_start_idx_silent by assumption.
  reflexivity.
Qed.

Lemma demodulate_loop_silent spb audio idxs :
  silent audio ->
  Forall (fun b => b = 0) (demodulate_loop m rate spb audio idxs).
Proof.
  intros H. induction idxs as [|i idxs IH]; cbn [demodulate_loop]; [constructor|].
  destruct (_ <? _); [constructor|].
  constructor; [apply decide_bit_silent, silent_slice, H | exact IH].
Qed.

Lemma demodulate_silent audio bits :
  silent audio -> demodulate m rate audio = Returns bits ->
  Forall (fun b => b = 0) bits.
Proof.
  intros H. unfold demodulate.
  destruct (baud_rate m =? 0); [discriminate|].
  destruct (decoder_samples_per_bit m rate =? 0); [discriminate|].
  intros [= <-]. apply demodulate_loop_silent.
  unfold aligned_audio. apply silent_firstn_skipn, H.
Qed.

Lemma decode_silent audio :
  silent audio -> decode_from_audio m rate audio = [].
Proof.
  intros H. unfold decode_from_audio.
  destruct (demodulate m rate audio) as [bits|e] eqn:E; [|reflexivity].
  cbn [bind]. rewrite bits_to_text_no_marker; [reflexivity|].
  apply no_marker_in_zeros, pack_bits_zero.
  exact (demodulate_silent _ _ H E).
Qed.

Lemma demodulate_loop_full spb audio idxs :
  0 <= spb ->
  (forall i, In i idxs -> 0 <= i /\ i + spb <= len audio) ->
  demodulate_loop m rate spb audio idxs
  = map (fun i => decide_bit m rate (slice audio i (i + spb))) idxs.
Proof.
  intros Hspb. induction idxs as [|i idxs IH]; intros H; [reflexivity|].
  cbn [demodulate_loop map].
  destruct (H i (or_introl eq_refl)) as [Hi Hle].
  rewrite slice_length by lia.
  destruct (Z.ltb_spec (i + spb - i) spb); [lia|].
  f_equal. apply IH. intros j Hj. apply H. right. exact Hj.
Qed.

(** The bits of [demodulate] in closed form: one decision per block index
    [k < (total - 1) / spb]. *)
Lemma demodulate_blocks audio :
  baud_rate m <> 0 -> 0 < decoder_samples_per_bit m rate ->
  let spb := decoder_samples_per_bit m rate in
  let aligned := aligned_audio m rate audio in
  demodulate m rate audio
  = Returns (map (fun k => decide_bit m rate
                             (slice aligned (Z.of_nat k * spb)
                                    (Z.of_nat k * spb + spb)))
                 (seq 0 (Z.to_nat ((len aligned - 1) / spb)))).
Proof.
  intros Hb Hspb spb aligned. unfold demodulate.
  destruct (Z.eqb_spec (baud_rate m) 0); [contradiction|].
  fold spb. fold aligned.
  destruct (Z.eqb_spec spb 0); [lia|].
  rewrite py_range_blocks by assumption.
  rewrite demodulate_loop_full.
  - rewrite map_map. reflexivity.
  - lia.
  - intros i Hi. apply in_map_iff in Hi. destruct Hi as [k [<- Hk]].
    apply in_seq in Hk.
    pose proof (block_index_bound (len aligned) spb k Hspb ltac:(lia)). nia.
Qed.

Lemma demodulate_bit_count audio :
  baud_rate m <> 0 -> 0 < decoder_samples_per_bit m rate ->
  exists bits,
    demodulate m rate audio = Returns bits
    /\ bits = map (fun k => decide_bit m rate (block m rate audio k))
                  (seq 0 (length bits))
    /\ length bits
       = Z.to_nat ((len (aligned_audio m rate audio) - 1)
                   / decoder_samples_per_bit m rate).
Proof.
  intros Hb Hspb. pose proof (demodulate_blocks audio Hb Hspb) as H.
  cbv zeta in H. eexists. split; [exact H|].
  rewrite length_map, length_seq. split; reflexivity.
Qed.

Lemma demodulate_returns_inv audio bits :
  0 <= rate -> 0 < baud_rate m ->
  demodulate m rate audio = Returns bits ->
  0 < decoder_samples_per_bit m rate.
Proof.
  intros Hr Hb. unfold demodulate.
  destruct (Z.eqb_spec (baud_rate m) 0); [lia|].
  destruct (Z.eqb_spec (decoder_samples_per_bit m rate) 0); [discriminate|].
  intros _. pose proof (int_div_nonneg rate (baud_rate m) Hr Hb).
  unfold decoder_samples_per_bit in *. lia.
Qed.

Lemma block_length audio k :
  0 < decoder_samples_per_bit m rate ->
  (k < Z.to_nat ((len (aligned_audio m rate audio) - 1)
                 / decoder_samples_per_bit m rate))%nat ->
  len (block m rate audio k) = decoder_samples_per_bit m rate.
Proof.
  intros Hspb Hk. unfold block. cbv zeta.
  pose proof (block_index_bound _ _ _ Hspb Hk).
  rewrite slice_length by nia. lia.
Qed.

End Demodulator.

(** ** A square wave that is decoded exactly *)

Lemma correlate_square_mark :
  correlate_with_frequency [1%R; 1%R] 2 4 = 4%R.
Proof.
  unfold correlate_with_frequency. cbn [length linspace_n seq map app].
  cbn [np_mul np_sum fold_right INR].
  replace (2 * PI * 2 * (0 * ((((1 + 1) / 4) - 0) / 1) + 0))%R with 0%R by field.
  replace (2 * PI * 2 * ((1 + 1) / 4))%R with (2 * PI)%R by field.
  rewrite sin_0, cos_0, sin_2PI, cos_2PI. ring.
Qed.

Lemma correlate_square_space :
  correlate_with_frequency [1%R; 1%R] 1 4 = 0%R.
Proof.
  unfold correlate_with_frequency. cbn [length linspace_n seq map app].
  cbn [np_mul np_sum fold_right INR].
  replace (2 * PI * 1 * (0 * ((((1 + 1) / 4) - 0) / 1) + 0))%R with 0%R by field.
  replace (2 * PI * 1 * ((1 + 1) / 4))%R with PI by field.
  rewrite sin_0, cos_0, sin_PI, cos_PI. ring.
Qed.

Lemma decide_square_block bit :
  is_bit bit -> decide_bit square_modem 4 (square_block bit) = bit.
Proof.
  intros [-> | ->].
  - apply decide_bit_silent. repeat constructor.
  - change (square_block 1) with [1%R; 1%R]. unfold decide_bit. cbn [square_modem freq_0 freq_1].
    rewrite correlate_square_mark, correlate_square_space.
    destruct (Rgt_dec 4 0) as [_|Hn]; [reflexivity | lra].
Qed.

Lemma square_wave_block bits post : forall k,
  (k < length bits)%nat ->
  firstn 2 (skipn (2 * k) (flat_map square_block bits ++ post))
  = square_block (nth k bits 0).
Proof.
  induction bits as [|b bits IH]; intros k Hk; [cbn [length] in Hk; lia|].
  cbn [flat_map]. rewrite <- app_assoc.
  assert (E : exists x y, square_block b = [x; y])
    by (unfold square_block; destruct (b =? 1); eauto).
  destruct E as (x & y & E). rewrite E.
  destruct k as [|k]; [cbn [nth]; rewrite E; reflexivity|].
  replace (2 * S k)%nat with (S (S (2 * k))) by lia.
  cbn [app skipn nth]. apply IH. cbn [length] in Hk. lia.
Qed.

Lemma square_wave_length bits :
  length (square_wave bits) = (2 * length bits + 2)%nat.
Proof.
  unfold square_wave. rewrite length_app. cbn [length].
  induction bits as [|b bits IH]; [reflexivity|].
  cbn [flat_map length]. rewrite length_app.
  assert (length (square_block b) = 2%nat)
    by (unfold square_block; destruct (b =? 1); reflexivity).
  lia.
Qed.

Lemma square_wave_aligned bits :
  aligned_audio square_modem 4 (square_wave (1 :: bits)) = square_wave (1 :: bits).
Proof.
  unfold aligned_audio, find_start_idx. rewrite py_range_0_n_1.
  unfold len. rewrite square_wave_length.
  replace (Z.to_nat (Z.of_nat (2 * length (1 :: bits) + 2)))
    with (S (2 * length (1 :: bits) + 1)) by lia.
  cbn [seq map find].
  assert (E : exceeds_threshold (square_wave (1 :: bits)) (Z.of_nat 0) = true).
  { unfold exceeds_threshold, square_wave, threshold. cbn.
    rewrite Rabs_R1. destruct (Rgt_dec 1 (1 / 100)) as [_|Hn]; [reflexivity | lra]. }
  rewrite E. reflexivity.
Qed.

Lemma demodulate_square_wave bits :
  Forall is_bit bits ->
  demodulate square_modem 4 (square_wave (1 :: bits)) = Returns (1 :: bits).
Proof.
  intros Hbits.
  assert (Hall : Forall is_bit (1 :: bits))
    by (constructor; [right; reflexivity | exact Hbits]).
  remember (1 :: bits) as bs eqn:Ebs.
  pose proof (demodulate_blocks square_modem 4 (square_wave bs)) as H.
  cbv zeta in H. rewrite H; [| cbn; lia | cbn; lia]. clear H.
  rewrite Ebs, square_wave_aligned, <- Ebs.
  change (decoder_samples_per_bit square_modem 4) with 2.
  unfold len. rewrite square_wave_length.
  replace (Z.to_nat ((Z.of_nat (2 * length bs + 2) - 1) / 2)) with (length bs)
    by (apply Nat2Z.inj; rewrite Z2Nat.id by zdm; zdm).
  f_equal. apply nth_ext with (d := 0) (d' := 0).
  - rewrite length_map, length_seq. reflexivity.
  - intros k Hk. rewrite length_map, length_seq in Hk.
    rewrite nth_map_seq by exact Hk.
    unfold slice, square_wave.
    replace (Z.to_nat (Z.of_nat k * 2 + 2 - Z.of_nat k * 2)) with 2%nat by lia.
    replace (Z.to_nat (Z.of_nat k * 2)) with (2 * k)%nat by lia.
    rewrite square_wave_block by exact Hk.
    apply decide_square_block.
    rewrite Forall_forall in Hall. apply Hall, nth_In, Hk.
Qed.

(** ** Round trip through the waveform *)

(** *** Lists *)

Lemma find_app {A} (f : A -> bool) l1 l2 :
  find f (l1 ++ l2)
  = match find f l1 with Some x => Some x | None => find f l2 end.
Proof.
  induction l1 as [|x l1 IH]; [reflexivity|].
  cbn [app find]. destruct (f x); [reflexivity | exact IH].
Qed.

Lemma find_all_false {A} (f : A -> bool) l :
  (forall x, In x l -> f x = false) -> find f l = None.
Proof.
  induction l as [|x l IH]; intros H; [reflexivity|].
  cbn [find]. rewrite (H x (or_introl eq_refl)).
  apply IH. intros y Hy. apply H. right. exact Hy.
Qed.

Lemma firstn_skipn_app_l {A} (X Y : list A) a b :
  (a + b <= length X)%nat ->
  firstn a (skipn b (X ++ Y)) = firstn a (skipn b X).
Proof.
  intros H. rewrite skipn_app, firstn_app, length_skipn.
  replace (a - (length X - b))%nat with O by lia.
  rewrite firstn_0. apply app_nil_r.
Qed.

Lemma skipn_app_r {A} (X Y : list A) a b :
  length X = a -> skipn (a + b) (X ++ Y) = skipn b Y.
Proof.
  intros <-. rewrite skipn_app, skipn_all2 by lia.
  replace (length X + b - length X)%nat with b by lia. reflexivity.
Qed.

Lemma concat_window {A} (n s : nat) (post : list A) : forall chunks k,
  Forall (fun c => length c = n) chunks ->
  (k + 2 < length chunks)%nat -> (s <= 2 * n)%nat ->
  firstn n (skipn (k * n + s) (concat chunks ++ post))
  = firstn n (skipn s (nth k chunks [] ++ nth (S k) chunks []
                       ++ nth (S (S k)) chunks [])).
Proof.
  intros chunks k Hall. revert k.
  induction Hall as [|c0 chunks Hc0 Hall IH]; intros k Hk Hs.
  - cbn [length] in Hk. lia.
  - destruct k as [|k].
    + destruct chunks as [|c1 [|c2 chunks]]; cbn [length] in Hk; try lia.
      inversion Hall as [|? ? Hc1 Hall']; subst.
      inversion Hall' as [|? ? Hc2 _]; subst.
      cbn [concat nth Nat.mul Nat.add].
      rewrite <- !app_assoc.
      replace (c0 ++ c1 ++ c2 ++ concat chunks ++ post)
        with ((c0 ++ c1 ++ c2) ++ concat chunks ++ post)
        by (rewrite <- !app_assoc; reflexivity).
      apply firstn_skipn_app_l. rewrite !length_app. lia.
    + cbn [concat nth]. rewrite <- app_assoc.
      replace (S k * n + s)%nat with (n + (k * n + s))%nat by lia.
      rewrite skipn_app_r by exact Hc0.
      apply IH; [cbn [length] in Hk; lia | exact Hs].
Qed.

(** *** The first loud sample *)

Lemma exceeds_threshold_quiet audio_data i :
  quiet (nth (Z.to_nat i) audio_data 0%R) -> exceeds_threshold audio_data i = false.
Proof.
  unfold quiet, exceeds_threshold. intros H.
  destruct (Rgt_dec _ _) as [Hgt|_]; [lra | reflexivity].
Qed.

Lemma exceeds_threshold_loud audio_data i :
  (Rabs (nth (Z.to_nat i) audio_data 0%R) > threshold)%R ->
  exceeds_threshold audio_data i = true.
Proof.
  unfold exceeds_threshold. intros H.
  destruct (Rgt_dec _ _) as [_|Hn]; [reflexivity | contradiction].
Qed.

Lemma find_start_idx_split lead x rest samples_per_bit :
  Forall quiet lead -> (Rabs x > threshold)%R ->
  find_start_idx (lead ++ x :: rest) samples_per_bit
  = Z.max 0 (len lead - samples_per_bit / 4).
Proof.
  intros Hq Hx. unfold find_start_idx. rewrite py_range_0_n_1.
  replace (Z.to_nat (len (lead ++ x :: rest)))
    with (length lead + S (length rest))%nat
    by (unfold len; rewrite length_app; cbn [length]; lia).
  rewrite seq_app, map_app, find_app, find_all_false.
  - cbn [Nat.add seq map find].
    rewrite exceeds_threshold_loud; [reflexivity|].
    rewrite Nat2Z.id, app_nth2, Nat.sub_diag by lia. exact Hx.
  - intros i Hi. apply in_map_iff in Hi. destruct Hi as [k [<- Hk]].
    apply in_seq in Hk. apply exceeds_threshold_quiet.
    rewrite Nat2Z.id, app_nth1 by lia.
    rewrite Forall_forall in Hq. apply Hq, nth_In. lia.
Qed.

(** *** The synthesized waveform as a run of tones *)

Lemma np_zeros_returns n :
  0 <= n -> np_zeros n = Returns (repeat 0%R (Z.to_nat n)).
Proof.
  intros H. unfold np_zeros. destruct (Z.ltb_spec n 0); [lia | reflexivity].
Qed.

Lemma tone_length m bit :
  length (tone m bit) = Z.to_nat (encoder_samples_per_bit m).
Proof. unfold tone. rewrite length_map. apply linspace_n_length. Qed.

Lemma bit_signal_tone m bit :
  baud_rate m <> 0 -> 0 <= encoder_samples_per_bit m ->
  bit_signal m bit = Returns (tone m bit).
Proof.
  intros Hb Hn. unfold bit_signal.
  destruct (Z.eqb_spec (baud_rate m) 0); [contradiction|].
  rewrite linspace_returns by exact Hn. reflexivity.
Qed.

Lemma extend_bit_signals_tones m bits :
  baud_rate m <> 0 -> 0 <= encoder_samples_per_bit m ->
  extend_bit_signals m bits = Returns (flat_map (tone m) bits).
Proof.
  intros Hb Hn. induction bits as [|bit bits IH]; [reflexivity|].
  cbn [extend_bit_signals flat_map].
  rewrite bit_signal_tone, IH by assumption. reflexivity.
Qed.

Lemma tone_of_bit m bit : is_bit bit -> In (tone m bit) (segments m).
Proof.
  intros [-> | ->]; unfold segments; cbn [In]; auto.
Qed.

Lemma frame_bits_start payload :
  exists bits, flat_map byte_bits (frame_bytes payload) = 1 :: bits.
Proof.
  unfold frame_bytes. cbn [app flat_map].
  change (byte_bits 170) with [1; 0; 1; 0; 1; 0; 1; 0]. cbn [app]. eauto.
Qed.

Lemma quiet_zeros n : Forall quiet (repeat 0%R n).
Proof.
  apply Forall_forall. intros x Hx. apply repeat_spec in Hx. subst x.
  unfold quiet, threshold. rewrite Rabs_R0. lra.
Qed.

(** The waveform of a bit sequence: guard silence, one tone per bit, guard
    silence. *)
Lemma encode_to_audio_tones m text payload :
  UTF8.encode text = Some payload -> len payload <= 65535 ->
  baud_rate m <> 0 -> 0 <= encoder_samples_per_bit m ->
  0 <= silence_duration m ->
  encode_to_audio m text
  = Returns (Some (repeat 0%R (Z.to_nat (silence_duration m))
                   ++ flat_map (tone m) (flat_map byte_bits (frame_bytes payload))
                   ++ repeat 0%R (Z.to_nat (silence_duration m)))).
Proof.
  intros He Hl Hb Hn Hs. unfold encode_to_audio.
  rewrite (text_to_bits_frame _ _ He Hl). cbn [bind].
  destruct (frame_bits_start payload) as [bits E]. rewrite E.
  rewrite np_zeros_returns by exact Hs. cbn [bind].
  rewrite extend_bit_signals_tones by assumption. reflexivity.
Qed.

(** *** The demodulator on a run of tones *)

Section Recovery.

Variable m : DialupModem.
Variable bits : list Z.
Variables (lead rest : list R) (x : R).

Let nz := encoder_samples_per_bit m.
Let n := Z.to_nat nz.
Let S0 := Z.to_nat (silence_duration m).
Let fbits : list Z := 1 :: bits.
Let zeros := repeat 0%R n.
Let wave := repeat 0%R S0 ++ flat_map (tone m) fbits ++ repeat 0%R S0.
Let chunks := zeros :: map (tone m) fbits ++ [zeros].

Hypothesis Hbits : Forall is_bit bits.
Hypothesis Hn : 0 < nz.
Hypothesis Hsil : nz <= silence_duration m.
Hypothesis Hlead : tone m 1 = lead ++ x :: rest.
Hypothesis Hquiet : Forall quiet lead.
Hypothesis Hloud : (Rabs x > threshold)%R.
Hypothesis Hdisc : discriminates m (length lead).

Lemma recovery_first_loud : (length lead < n)%nat.
Proof.
  pose proof (tone_length m 1) as H. rewrite Hlead, length_app in H.
  cbn [length] in H. fold nz in H. fold n in H. lia.
Qed.

Lemma recovery_sizes : (0 < n)%nat /\ (n <= S0)%nat.
Proof. unfold n, S0. lia. Qed.

Lemma recovery_start :
  Z.to_nat (find_start_idx wave nz)
  = ((S0 - n) + block_shift m (length lead))%nat.
Proof.
  destruct recovery_sizes as [Hn0 HnS]. pose proof recovery_first_loud as Hk.
  unfold wave, fbits. cbn [flat_map]. rewrite Hlead, <- !app_assoc. cbn [app].
  rewrite app_assoc, find_start_idx_split;
    [| apply Forall_app; split; [apply quiet_zeros | exact Hquiet] | exact Hloud].
  unfold len. rewrite length_app, repeat_length.
  unfold block_shift. fold nz. fold n.
  assert (Hq : Z.to_nat (nz / 4) = (n / 4)%nat)
    by (unfold n; rewrite Z2Nat.inj_div by lia; reflexivity).
  assert (n / 4 <= n)%nat by (apply Nat.Div0.div_le_upper_bound; lia).
  assert (0 <= nz / 4) by (apply Z.div_pos; lia).
  lia.
Qed.

Lemma recovery_wave :
  wave = repeat 0%R (S0 - n) ++ concat chunks ++ repeat 0%R (S0 - n).
Proof.
  destruct recovery_sizes as [_ HnS]. unfold wave, chunks.
  rewrite flat_map_concat_map.
  cbn [concat]. rewrite concat_app. cbn [concat]. rewrite app_nil_r.
  replace S0 with ((S0 - n) + n)%nat at 1 by lia.
  replace S0 with (n + (S0 - n))%nat at 2 by lia.
  rewrite !repeat_app. fold zeros. rewrite <- !app_assoc. reflexivity.
Qed.

Lemma recovery_chunks_length : Forall (fun c => length c = n) chunks.
Proof.
  unfold chunks. constructor; [apply repeat_length|].
  apply Forall_app. split.
  - apply Forall_forall. intros c Hc. apply in_map_iff in Hc.
    destruct Hc as [b [<- _]]. apply tone_length.
  - constructor; [apply repeat_length | constructor].
Qed.

Lemma recovery_chunks_segments : forall k, (k < length chunks)%nat ->
  In (nth k chunks []) (segments m).
Proof.
  assert (H : Forall (fun c => In c (segments m)) chunks).
  { unfold chunks. constructor; [left; reflexivity|].
    apply Forall_app. split.
    - apply Forall_forall. intros c Hc. apply in_map_iff in Hc.
      destruct Hc as [b [<- Hb]]. apply tone_of_bit.
      unfold fbits in Hb. destruct Hb as [<-|Hb]; [right; reflexivity|].
      rewrite Forall_forall in Hbits. apply Hbits, Hb.
    - constructor; [left; reflexivity | constructor]. }
  intros k Hk. rewrite Forall_forall in H. apply H, nth_In, Hk.
Qed.

Lemma recovery_chunks_count : length chunks = (length fbits + 2)%nat.
Proof.
  unfold chunks. cbn [length]. rewrite length_app, length_map. cbn [length]. lia.
Qed.

Lemma recovery_block k :
  (k < length fbits)%nat ->
  block m (sample_rate m) wave k
  = window (block_shift m (length lead)) n
           (nth k chunks []) (tone m (nth k fbits 0))
           (nth (S (S k)) chunks []).
Proof.
  intros Hk. destruct recovery_sizes as [Hn0 HnS].
  pose proof recovery_first_loud as Hk1.
  unfold block, aligned_audio, slice.
  change (decoder_samples_per_bit m (sample_rate m)) with nz.
  replace (Z.to_nat (Z.of_nat k * nz + nz - Z.of_nat k * nz)) with n
    by (unfold n; lia).
  replace (Z.to_nat (Z.of_nat k * nz)) with (k * n)%nat by (unfold n; nia).
  rewrite skipn_skipn, recovery_start, recovery_wave.
  replace (k * n + (S0 - n + block_shift m (length lead)))%nat
    with ((S0 - n) + (k * n + block_shift m (length lead)))%nat by lia.
  rewrite skipn_app_r by apply repeat_length.
  assert (Hs : (block_shift m (length lead) <= 2 * n)%nat).
  { unfold block_shift. fold nz. fold n. lia. }
  rewrite (concat_window n (block_shift m (length lead)) _ chunks k
             recovery_chunks_length);
    [| rewrite recovery_chunks_count; lia | exact Hs].
  assert (E : nth (S k) chunks [] = tone m (nth k fbits 0)).
  { unfold chunks. cbn [nth].
    rewrite app_nth1 by (rewrite length_map; exact Hk).
    rewrite (nth_indep _ [] (tone m 0)) by (rewrite length_map; exact Hk).
    apply map_nth. }
  rewrite E. reflexivity.
Qed.

Lemma recovery_decision k :
  (k < length fbits)%nat ->
  decide_bit m (sample_rate m) (block m (sample_rate m) wave k)
  = nth k fbits 0.
Proof.
  intros Hk. rewrite recovery_block by exact Hk.
  apply Hdisc.
  - apply recovery_chunks_segments. rewrite recovery_chunks_count. lia.
  - apply recovery_chunks_segments. rewrite recovery_chunks_count. lia.
  - assert (H : Forall is_bit fbits)
      by (unfold fbits; constructor; [right; reflexivity | exact Hbits]).
    rewrite Forall_forall in H. apply H, nth_In, Hk.
Qed.

Lemma recovery_demodulate :
  baud_rate m <> 0 ->
  exists tail, demodulate m (sample_rate m) wave = Returns (fbits ++ tail).
Proof.
  intros Hb. destruct recovery_sizes as [Hn0 HnS].
  pose proof recovery_first_loud as Hk1.
  destruct (demodulate_bit_count m (sample_rate m) wave Hb Hn)
    as (out & E & Hmap & Hlen).
  assert (Hcount : (length fbits <= length out)%nat).
  { rewrite Hlen. change (decoder_samples_per_bit m (sample_rate m)) with nz.
    unfold aligned_audio.
    change (decoder_samples_per_bit m (sample_rate m)) with nz.
    unfold len. rewrite length_skipn, recovery_start.
    unfold wave. rewrite !length_app, !repeat_length.
    rewrite flat_map_concat_map.
    assert (Ht : length (concat (map (tone m) fbits))
                 = (length fbits * n)%nat).
    { generalize fbits as l. induction l as [|b l IH]; [reflexivity|].
      cbn [map concat length]. rewrite length_app, tone_length, IH.
      fold nz. fold n. lia. }
    rewrite Ht. unfold block_shift. fold nz. fold n.
    assert (n / 4 <= n)%nat by (apply Nat.Div0.div_le_upper_bound; lia).
    apply Nat2Z.inj_le. rewrite Z2Nat.id.
    - apply Z.div_le_lower_bound; [exact Hn|]. unfold n in *. nia.
    - apply Z.div_pos; [|exact Hn]. unfold n in *. nia. }
  exists (skipn (length fbits) out). rewrite E. f_equal.
  rewrite <- (firstn_skipn (length fbits) out) at 1. f_equal.
  apply nth_ext with (d := 0) (d' := 0).
  - rewrite length_firstn. lia.
  - intros k Hk. rewrite length_firstn in Hk.
    rewrite nth_firstn. destruct (Nat.ltb_spec k (length fbits)); [|lia].
    rewrite Hmap, nth_map_seq by lia. apply recovery_decision. lia.
Qed.

End Recovery.

(** *** Four samples per bit *)

(** Equality of two lists of reals, sample by sample. *)
Ltac samplewise tac :=
  repeat (apply (f_equal2 (@cons R)); [tac|]); try reflexivity.

Lemma quad_times_encoder :
  linspace_n 0 (1 / IZR (baud_rate quad_modem))
             (Z.to_nat (encoder_samples_per_bit quad_modem))
  = [0; 1 / 120; 2 / 120; 3 / 120]%R.
Proof.
  change (Z.to_nat (encoder_samples_per_bit quad_modem)) with 4%nat.
  cbn [baud_rate quad_modem]. rewrite linspace_n_SS.
  cbn [seq map app INR]. samplewise ltac:(field).
Qed.

Lemma quad_times_detector :
  linspace_n 0 (INR 4 / IZR 160) 4 = [0; 1 / 120; 2 / 120; 3 / 120]%R.
Proof.
  rewrite linspace_n_SS. cbn [seq map app INR]. samplewise ltac:(field).
Qed.

Lemma quad_sin_mark :
  map (fun x => sin (2 * PI * IZR 30 * x)) [0; 1 / 120; 2 / 120; 3 / 120]%R
  = [0; 1; 0; -1]%R.
Proof.
  cbn [map].
  replace (2 * PI * 30 * 0)%R with 0%R by ring.
  replace (2 * PI * 30 * (1 / 120))%R with (PI / 2)%R by field.
  replace (2 * PI * 30 * (2 / 120))%R with PI by field.
  replace (2 * PI * 30 * (3 / 120))%R with (3 * (PI / 2))%R by field.
  rewrite sin_0, sin_PI2, sin_PI, sin_3PI2. reflexivity.
Qed.

Lemma quad_cos_mark :
  map (fun x => cos (2 * PI * IZR 30 * x)) [0; 1 / 120; 2 / 120; 3 / 120]%R
  = [1; 0; -1; 0]%R.
Proof.
  cbn [map].
  replace (2 * PI * 30 * 0)%R with 0%R by ring.
  replace (2 * PI * 30 * (1 / 120))%R with (PI / 2)%R by field.
  replace (2 * PI * 30 * (2 / 120))%R with PI by field.
  replace (2 * PI * 30 * (3 / 120))%R with (3 * (PI / 2))%R by field.
  rewrite cos_0, cos_PI2, cos_PI, cos_3PI2. reflexivity.
Qed.

Lemma quad_sin_space :
  map (fun x => sin (2 * PI * IZR 20 * x)) [0; 1 / 120; 2 / 120; 3 / 120]%R
  = [0; sqrt 3 / 2; sqrt 3 / 2; 0]%R.
Proof.
  cbn [map].
  replace (2 * PI * 20 * 0)%R with 0%R by ring.
  replace (2 * PI * 20 * (1 / 120))%R with (PI / 3)%R by field.
  replace (2 * PI * 20 * (2 / 120))%R with (2 * (PI / 3))%R by field.
  replace (2 * PI * 20 * (3 / 120))%R with PI by field.
  rewrite sin_0, sin_PI3, sin_2PI3, sin_PI. reflexivity.
Qed.

Lemma quad_cos_space :
  map (fun x => cos (2 * PI * IZR 20 * x)) [0; 1 / 120; 2 / 120; 3 / 120]%R
  = [1; 1 / 2; - 1 / 2; -1]%R.
Proof.
  cbn [map].
  replace (2 * PI * 20 * 0)%R with 0%R by ring.
  replace (2 * PI * 20 * (1 / 120))%R with (PI / 3)%R by field.
  replace (2 * PI * 20 * (2 / 120))%R with (2 * (PI / 3))%R by field.
  replace (2 * PI * 20 * (3 / 120))%R with PI by field.
  rewrite cos_0, cos_PI3, cos_2PI3, cos_PI. reflexivity.
Qed.

Lemma quad_tone_mark :
  tone quad_modem 1 = [0; amplitude; 0; - amplitude]%R.
Proof.
  unfold tone. rewrite quad_times_encoder.
  change (bit_freq quad_modem 1) with 30.
  rewrite <- (map_map (fun x => sin (2 * PI * IZR 30 * x))
                      (fun y => (amplitude * y)%R)).
  rewrite quad_sin_mark. cbn [map]. samplewise ltac:(ring).
Qed.

Lemma quad_tone_space :
  tone quad_modem 0
  = [0; amplitude * (sqrt 3 / 2); amplitude * (sqrt 3 / 2); 0]%R.
Proof.
  unfold tone. rewrite quad_times_encoder.
  change (bit_freq quad_modem 0) with 20.
  rewrite <- (map_map (fun x => sin (2 * PI * IZR 20 * x))
                      (fun y => (amplitude * y)%R)).
  rewrite quad_sin_space. cbn [map]. samplewise ltac:(ring).
Qed.

Lemma segments_length m c :
  In c (segments m) -> length c = Z.to_nat (encoder_samples_per_bit m).
Proof.
  unfold segments. cbn [In]. intros [<- | [<- | [<- | []]]].
  - apply repeat_length.
  - apply tone_length.
  - apply tone_length.
Qed.

Lemma window_aligned n (before current after : list R) :
  length before = n -> length current = n ->
  window n n before current after = current.
Proof.
  intros Hb Hc. unfold window.
  replace n with (n + 0)%nat at 2 by lia.
  rewrite skipn_app_r by exact Hb. cbn [skipn].
  rewrite firstn_app, <- Hc, firstn_all, Nat.sub_diag, firstn_0.
  apply app_nil_r.
Qed.

Lemma quad_correlate_mark a b c d :
  correlate_with_frequency [a; b; c; d] 30 160
  = ((b - d) ^ 2 + (a - c) ^ 2)%R.
Proof.
  unfold correlate_with_frequency. cbn [length].
  rewrite quad_times_detector, quad_sin_mark, quad_cos_mark.
  cbn [np_mul np_sum fold_right]. ring.
Qed.

Lemma quad_correlate_space a b c d :
  correlate_with_frequency [a; b; c; d] 20 160
  = (((b + c) * (sqrt 3 / 2)) ^ 2 + (a + b / 2 - c / 2 - d) ^ 2)%R.
Proof.
  unfold correlate_with_frequency. cbn [length].
  rewrite quad_times_detector, quad_sin_space, quad_cos_space.
  cbn [np_mul np_sum fold_right]. field.
Qed.

Lemma sqrt3_square : (sqrt 3 * sqrt 3 = 3)%R.
Proof. apply sqrt_sqrt. lra. Qed.

Lemma quad_decide_tone bit :
  is_bit bit -> decide_bit quad_modem 160 (tone quad_modem bit) = bit.
Proof.
  pose proof sqrt3_square as Hr.
  intros [-> | ->]; unfold decide_bit; cbn [freq_0 freq_1 quad_modem].
  - rewrite quad_tone_space, quad_correlate_mark, quad_correlate_space.
    unfold amplitude. destruct (Rgt_dec _ _) as [H|_]; [|reflexivity].
    exfalso. nra.
  - rewrite quad_tone_mark, quad_correlate_mark, quad_correlate_space.
    unfold amplitude. destruct (Rgt_dec _ _) as [_|H]; [reflexivity|].
    exfalso. apply H. nra.
Qed.

Lemma quad_discriminates : discriminates quad_modem 1.
Proof.
  intros before after bit Hb Ha Hbit.
  change (block_shift quad_modem 1) with 4%nat.
  change (Z.to_nat (encoder_samples_per_bit quad_modem)) with 4%nat.
  rewrite window_aligned.
  - apply quad_decide_tone, Hbit.
  - apply (segments_length quad_modem), Hb.
  - apply (tone_length quad_modem).
Qed.

(** *** Two samples per bit *)

Lemma origin_time c s : (c * (0 * s + 0))%R = 0%R.
Proof. ring. Qed.

(** A block of two samples whose second sample is zero scores the square
    of its first sample at every frequency. *)
Lemma correlate_pair u freq rate :
  correlate_with_frequency [u; 0%R] freq rate = (u ^ 2)%R.
Proof.
  unfold correlate_with_frequency. cbn [length]. rewrite linspace_n_SS.
  cbn [seq map app np_mul INR]. rewrite !origin_time, sin_0, cos_0.
  unfold np_sum. cbn [fold_right fold_left]. ring.
Qed.

Lemma decide_bit_pair m rate u : decide_bit m rate [u; 0%R] = 0.
Proof.
  unfold decide_bit. rewrite !correlate_pair.
  destruct (Rgt_dec _ _) as [H|_]; [lra | reflexivity].
Qed.

Lemma firstn_skipn_pair (l : list R) i :
  (i + 2 <= length l)%nat ->
  firstn 2 (skipn i l) = [nth i l 0%R; nth (S i) l 0%R].
Proof.
  revert i. induction l as [|a l IH]; intros i Hi; [cbn [length] in Hi; lia|].
  destruct i as [|i].
  - destruct l as [|b l]; [cbn [length] in Hi; lia | reflexivity].
  - cbn [skipn nth]. apply IH. cbn [length] in Hi. lia.
Qed.

Lemma duo_tone bit :
  exists a, tone duo_modem bit = [0%R; a].
Proof.
  unfold tone. change (Z.to_nat (encoder_samples_per_bit duo_modem)) with 2%nat.
  rewrite linspace_n_SS. cbn [seq map app INR].
  eexists. apply (f_equal2 (@cons R)); [|reflexivity].
  rewrite origin_time, sin_0. ring.
Qed.

Lemma duo_tone_mark : tone duo_modem 1 = [0%R; amplitude].
Proof.
  unfold tone. change (Z.to_nat (encoder_samples_per_bit duo_modem)) with 2%nat.
  change (bit_freq duo_modem 1) with 100. cbn [baud_rate duo_modem].
  rewrite linspace_n_SS. cbn [seq map app INR].
  rewrite origin_time, sin_0.
  replace (2 * PI * 100 * (1 / 400))%R with (PI / 2)%R by field.
  rewrite sin_PI2. samplewise ltac:(ring).
Qed.

(** In a run of two-sample tones followed by zeros every sample at an even
    index is zero. *)
Lemma duo_even_samples post : (forall i, nth i post 0%R = 0%R) ->
  forall bits i,
    nth (2 * i) (flat_map (tone duo_modem) bits ++ post) 0%R = 0%R.
Proof.
  intros Hpost. induction bits as [|b bits IH]; intros i.
  - apply Hpost.
  - cbn [flat_map]. destruct (duo_tone b) as [a ->]. rewrite <- app_assoc.
    destruct i as [|i]; [reflexivity|].
    replace (2 * S i)%nat with (S (S (2 * i))) by lia. cbn [app nth]. apply IH.
Qed.

Lemma nth_zeros n i : nth i (repeat 0%R n) 0%R = 0%R.
Proof.
  destruct (Nat.lt_ge_cases i n).
  - apply nth_repeat_lt. assumption.
  - apply nth_overflow. rewrite repeat_length. assumption.
Qed.

Lemma duo_aligned bits :
  aligned_audio duo_modem 800
    (repeat 0%R 80 ++ flat_map (tone duo_modem) (1 :: bits) ++ repeat 0%R 80)
  = amplitude :: (flat_map (tone duo_modem) bits ++ repeat 0%R 80).
Proof.
  unfold aligned_audio. change (decoder_samples_per_bit duo_modem 800) with 2.
  cbn [flat_map]. rewrite duo_tone_mark.
  change (repeat 0%R 80 ++ ([0%R; amplitude] ++ flat_map (tone duo_modem) bits)
          ++ repeat 0%R 80)
    with (repeat 0%R 80 ++ [0%R]
          ++ amplitude :: (flat_map (tone duo_modem) bits ++ repeat 0%R 80)).
  rewrite app_assoc.
  assert (Hq : Forall quiet (repeat 0%R 80 ++ [0%R])).
  { apply Forall_app. split; [apply quiet_zeros | apply (quiet_zeros 1)]. }
  assert (Hl : length (repeat 0%R 80 ++ [0%R]) = 81%nat)
    by (rewrite length_app, repeat_length; reflexivity).
  rewrite find_start_idx_split; [| exact Hq |].
  - unfold len. rewrite Hl. change (Z.to_nat (Z.max 0 (Z.of_nat 81 - 2 / 4)))
      with (81 + 0)%nat.
    rewrite (skipn_app_r _ _ 81 0 Hl). reflexivity.
  - unfold amplitude, threshold. rewrite Rabs_pos_eq by lra. lra.
Qed.

(** At two samples per bit the second sample of every block the demodulator
    cuts is the first sample of the next tone, which is zero: the scores
    tie and every bit comes out 0. *)
Lemma duo_demodulate_zeros bits :
  exists out,
    demodulate duo_modem 800
      (repeat 0%R 80 ++ flat_map (tone duo_modem) (1 :: bits) ++ repeat 0%R 80)
    = Returns out
    /\ Forall (fun b => b = 0) out.
Proof.
  set (w := (repeat 0%R 80 ++ flat_map (tone duo_modem) (1 :: bits)
             ++ repeat 0%R 80)).
  assert (Hb : baud_rate duo_modem <> 0) by (cbn [baud_rate duo_modem]; lia).
  assert (Hspb : 0 < decoder_samples_per_bit duo_modem 800)
    by (change (decoder_samples_per_bit duo_modem 800) with 2; lia).
  destruct (demodulate_bit_count duo_modem 800 w Hb Hspb)
    as (out & E & Hmap & Hlen).
  exists out. split; [exact E|].
  rewrite Hmap. apply Forall_forall. intros b Hin.
  apply in_map_iff in Hin. destruct Hin as [k [<- Hk]]. apply in_seq in Hk.
  assert (Hk' : (k < Z.to_nat ((len (aligned_audio duo_modem 800 w) - 1)
                               / decoder_samples_per_bit duo_modem 800))%nat)
    by lia.
  apply (block_index_bound _ _ _ Hspb) in Hk'.
  unfold block, slice. fold w.
  change (decoder_samples_per_bit duo_modem 800) with 2 in *.
  replace (Z.to_nat (Z.of_nat k * 2 + 2 - Z.of_nat k * 2)) with 2%nat by lia.
  replace (Z.to_nat (Z.of_nat k * 2)) with (2 * k)%nat by lia.
  rewrite firstn_skipn_pair by (unfold len in Hk'; lia).
  unfold w. rewrite duo_aligned. cbn [nth].
  rewrite duo_even_samples by apply nth_zeros.
  apply decide_bit_pair.
Qed.

(** * Main statements *)

(** ** Round trip *)

(** With one sample per bit (sample rate equal to the baud rate) every
    synthesized tone is the single sample [sin 0 = 0], the waveform of
    ["A"] is silence, and decoding it returns the empty string, not
    ["A"]. *)
Lemma roundtrip_fails_one_sample_per_bit :
  UTF8.encode [65] = Some [65]
  /\ len [65] <= 65535
  /\ exists w,
       encode_to_audio one_sample_modem [65] = Returns (Some w)
       /\ decode_from_audio one_sample_modem (sample_rate one_sample_modem) w
          <> [65].
Proof.
  split; [reflexivity|]. split; [unfold len; cbn [length]; lia|].
  assert (Hsil : 0 <= silence_duration one_sample_modem)
    by (change (silence_duration one_sample_modem) with 800; lia).
  assert (Hlen : len [65] <= 65535) by (unfold len; cbn [length]; lia).
  destruct (encode_single_sample_silent one_sample_modem [65] [65]
              eq_refl Hlen eq_refl Hsil) as (w & Ew & Hw).
  exists w. split; [exact Ew|]. rewrite decode_silent by exact Hw.
  discriminate.
Qed.

(** With two samples per bit, at tones below half the sample rate, the
    waveform of ["A"] is not silent, but the demodulator starts each block
    on the second sample of a tone and ends it on the first sample of the
    next one, which is zero: the two scores of every block are equal,
    every bit is decided 0, no marker is found, and decoding returns the
    empty string, not ["A"]. *)
Lemma roundtrip_fails_two_samples_per_bit :
  exists w,
    encode_to_audio duo_modem [65] = Returns (Some w)
    /\ decode_from_audio duo_modem (sample_rate duo_modem) w <> [65].
Proof.
  assert (Hl : len [65] <= 65535) by (unfold len; cbn [length]; lia).
  destruct (frame_bits_start [65]) as [bits Hf].
  destruct (duo_demodulate_zeros bits) as (out & E & Hz).
  eexists. split.
  - apply (encode_to_audio_tones duo_modem [65] [65] eq_refl Hl).
    + cbn [baud_rate duo_modem]. lia.
    + change (encoder_samples_per_bit duo_modem) with 2. lia.
    + change (silence_duration duo_modem) with 80. lia.
  - change (Z.to_nat (silence_duration duo_modem)) with 80%nat.
    change (sample_rate duo_modem) with 800. rewrite Hf.
    unfold decode_from_audio. rewrite E. cbn [bind].
    rewrite bits_to_text_no_marker
      by (apply no_marker_in_zeros, pack_bits_zero; exact Hz).
    discriminate.
Qed.




(** The frame-level half of the round trip: whenever the demodulator
    recovers the serialized bits of a text, followed by any further bits,
    decoding returns exactly the text. *)
Lemma roundtrip_on_recovered_bits m rate audio_data text payload bits tail :
  UTF8.encode text = Some payload ->
  len payload <= 65535 ->
  text_to_bits text = Returns bits ->
  demodulate m rate audio_data = Returns (bits ++ tail) ->
  decode_from_audio m rate audio_data = text.
Proof.
  intros He Hl Hbits Hdem. unfold decode_from_audio. rewrite Hdem. cbn [bind].
  assert (E : bits = flat_map byte_bits (frame_bytes payload))
    by (pose proof (text_to_bits_frame _ _ He Hl); congruence).
  rewrite E, (frame_roundtrip _ _ tail He Hl). reflexivity.
Qed.

(** The frame of ["A"] sent as a square wave at two samples per bit is
    decoded to ["A"]. *)
Lemma roundtrip_on_recovered_bits_witness :
  decode_from_audio square_modem 4 (square_wave frame_bits_A) = [65].
Proof.
  apply (roundtrip_on_recovered_bits square_modem 4 (square_wave frame_bits_A)
           [65] [65] frame_bits_A []).
  - reflexivity.
  - unfold len. cbn [length]. lia.
  - reflexivity.
  - rewrite app_nil_r. apply demodulate_square_wave.
    repeat (apply Forall_cons; [first [left; reflexivity | right; reflexivity]|]).
    apply Forall_nil.
Defined.

(** ** Serialization *)

(** C2, counterexample. A text of 65536 ASCII characters is encodable in
    UTF-8, yet [text_to_bits] emits nothing: it raises. *)
Lemma text_to_bits_long_text_raises :
  UTF8.encode (repeat 65 (Z.to_nat 65536)) = Some (repeat 65 (Z.to_nat 65536))
  /\ text_to_bits (repeat 65 (Z.to_nat 65536)) = Raises OverflowError.
Proof.
  split; [apply encode_ascii_repeat; lia|].
  unfold text_to_bits. rewrite encode_ascii_repeat by lia.
  cbv zeta. rewrite len_repeat by lia. reflexivity.
Qed.

(** C2, amended. For every text whose UTF-8 encoding has at most 65535
    bytes, [text_to_bits] returns, most significant bit first, the bits of
    the bytes 0xAA 0x55 0xAA 0x55, of the two bytes of the little-endian
    length, and of the UTF-8 bytes; they are [48 + 8 * length] many and each
    is 0 or 1. *)
Theorem text_to_bits_layout text payload :
  UTF8.encode text = Some payload ->
  len payload <= 65535 ->
  exists bits,
    text_to_bits text = Returns bits
    /\ bits = flat_map msb_first
                ([0xAA; 0x55; 0xAA; 0x55]
                 ++ [len payload mod 256; len payload / 256] ++ payload)
    /\ len payload = len payload mod 256 + 256 * (len payload / 256)
    /\ len bits = 48 + 8 * len payload
    /\ Forall is_bit bits.
Proof.
  intros He Hl. exists (flat_map byte_bits (frame_bytes payload)).
  split; [exact (text_to_bits_frame _ _ He Hl)|].
  split; [apply flat_map_msb_first|].
  split; [zdm|].
  split; [|apply flat_map_bits].
  unfold len. rewrite flat_map_bits_length. unfold frame_bytes.
  rewrite !length_app. cbn [length]. lia.
Qed.

(** Witness of C2: the text ["Hi"]. *)
Lemma text_to_bits_layout_witness :
  exists bits,
    text_to_bits [72; 105] = Returns bits
    /\ bits = flat_map msb_first
                ([0xAA; 0x55; 0xAA; 0x55]
                 ++ [len [72; 105] mod 256; len [72; 105] / 256] ++ [72; 105])
    /\ len [72; 105] = len [72; 105] mod 256 + 256 * (len [72; 105] / 256)
    /\ len bits = 48 + 8 * len [72; 105]
    /\ Forall is_bit bits.
Proof.
  apply (text_to_bits_layout [72; 105] [72; 105]).
  - reflexivity.
  - unfold len. cbn [length]. lia.
Defined.

(** C10. For every text whose UTF-8 encoding is longer than 65535 bytes,
    [text_to_bits] raises [OverflowError] (the length does not fit its two
    bytes), nothing catches it, and [encode_to_audio] raises it too: it
    returns for no such text. *)
Theorem text_to_bits_overflow text payload :
  UTF8.encode text = Some payload ->
  65535 < len payload ->
  text_to_bits text = Raises OverflowError
  /\ (forall m, encode_to_audio m text = Raises OverflowError)
  /\ (forall m out, encode_to_audio m text <> Returns out).
Proof.
  intros He Hl.
  assert (E : text_to_bits text = Raises OverflowError).
  { unfold text_to_bits. rewrite He. cbv zeta.
    rewrite to_bytes_2_little_overflow by exact Hl. reflexivity. }
  split; [exact E|]. split.
  - intros m. unfold encode_to_audio. rewrite E. reflexivity.
  - intros m out. unfold encode_to_audio. rewrite E. discriminate.
Qed.

(** Witness of C10: 65536 letters B. *)
Lemma text_to_bits_overflow_witness :
  text_to_bits (repeat 66 (Z.to_nat 65536)) = Raises OverflowError
  /\ (forall m, encode_to_audio m (repeat 66 (Z.to_nat 65536))
                = Raises OverflowError)
  /\ (forall m out, encode_to_audio m (repeat 66 (Z.to_nat 65536))
                    <> Returns out).
Proof.
  apply (text_to_bits_overflow (repeat 66 (Z.to_nat 65536))
           (repeat 66 (Z.to_nat 65536))).
  - apply encode_ascii_repeat. lia.
  - rewrite len_repeat by lia. lia.
Defined.




(** ** Deserialization *)

(** C6. A bit sequence of fewer than 48 bits, and a bit sequence whose
    packed bytes contain no four-byte window equal to the start marker, are
    both deserialized to the empty string, and [bits_to_text] raises in
    neither case. *)
Theorem bits_to_text_insufficient bits :
  len bits < 48 \/ has_marker_window (pack_bits bits) = false ->
  bits_to_text bits = Returns [].
Proof.
  intros [H|H].
  - unfold bits_to_text. destruct (Z.ltb_spec (len bits) 48); [reflexivity | lia].
  - apply bits_to_text_no_marker, H.
Qed.

(** Witness of C6: ten bits, and six bytes 0xFF. *)
Lemma bits_to_text_insufficient_witness :
  bits_to_text (repeat 1 10) = Returns []
  /\ bits_to_text (repeat 1 48) = Returns [].
Proof.
  split.
  - apply (bits_to_text_insufficient (repeat 1 10)). left.
    unfold len. cbn [repeat length]. lia.
  - apply (bits_to_text_insufficient (repeat 1 48)). right.
    vm_compute. reflexivity.
Defined.

(** C7. A bit sequence with a start marker and a complete length field [L]
    followed by fewer than [L] bytes is deserialized without an error to the
    text of all the bytes that do follow.  In particular a serialized text
    cut anywhere after its length field is deserialized to a prefix of the
    text. *)
Theorem bits_to_text_clamps :
  (forall bits p lo hi,
      Forall is_bit bits ->
      find_start_pos (pack_bits bits) = p -> p <> -1 ->
      nth_error (pack_bits bits) (Z.to_nat p) = Some lo ->
      nth_error (pack_bits bits) (Z.to_nat (p + 1)) = Some hi ->
      len (pack_bits bits) - (p + 2) < lo + 256 * hi ->
      bits_to_text bits
      = Returns (UTF8.decode_ignore (skipn (Z.to_nat (p + 2)) (pack_bits bits))))
  /\ (forall text payload bits k,
         UTF8.encode text = Some payload -> len payload <= 65535 ->
         text_to_bits text = Returns bits ->
         (48 <= k < length bits)%nat ->
         exists partial,
           bits_to_text (firstn k bits) = Returns partial
           /\ partial = UTF8.decode_ignore
                          (skipn 6 (pack_bits (firstn k bits)))
           /\ prefix_of partial text).
Proof.
  split.
  - intros bits p lo hi Hbits Hp Hne Hlo Hhi Hshort.
    pose proof (bits_to_text_at bits p lo hi) as H. cbv zeta in H.
    assert (Hall : firstn (Z.to_nat (lo + 256 * hi))
                     (skipn (Z.to_nat (p + 2)) (pack_bits bits))
                   = skipn (Z.to_nat (p + 2)) (pack_bits bits)).
    { apply firstn_all2. rewrite length_skipn. unfold len in Hshort. lia. }
    rewrite Hall in H. apply H; try assumption.
    apply Forall_firstn_skipn, pack_bits_bytes, Hbits.
  - intros text payload bits k He Hl Hbits Hk.
    assert (E : bits = flat_map byte_bits (frame_bytes payload))
      by (pose proof (text_to_bits_frame _ _ He Hl); congruence).
    subst bits. pose proof (encode_bytes _ _ He) as Hb.
    assert (Hq : (6 <= k / 8)%nat).
    { change 6%nat with (48 / 8)%nat. apply Nat.Div0.div_le_mono. lia. }
    exists (UTF8.decode_ignore (firstn (k / 8 - 6) payload)).
    split; [apply (frame_truncated text); [assumption | assumption | lia]|].
    split.
    + rewrite pack_firstn_flat_map by (apply frame_bytes_ok; assumption).
      unfold frame_bytes.
      replace (k / 8)%nat with (4 + (2 + (k / 8 - 6)))%nat at 2 by lia.
      reflexivity.
    + apply decode_cut_prefix, He.
Qed.

(** Witness of C7: a frame announcing three bytes with one byte present, and
    the frame of the text "é!" cut in the middle of its first character. *)
Lemma bits_to_text_clamps_witness :
  bits_to_text (flat_map byte_bits [0xAA; 0x55; 0xAA; 0x55; 3; 0; 72])
  = Returns (UTF8.decode_ignore
               (skipn (Z.to_nat (4 + 2))
                  (pack_bits (flat_map byte_bits [0xAA; 0x55; 0xAA; 0x55; 3; 0; 72]))))
  /\ exists partial,
       bits_to_text (firstn 60 (flat_map byte_bits (frame_bytes [195; 169; 33])))
       = Returns partial
       /\ partial = UTF8.decode_ignore
                      (skipn 6 (pack_bits
                                  (firstn 60 (flat_map byte_bits
                                                (frame_bytes [195; 169; 33])))))
       /\ prefix_of partial [233; 33].
Proof.
  split.
  - apply (proj1 bits_to_text_clamps
             (flat_map byte_bits [0xAA; 0x55; 0xAA; 0x55; 3; 0; 72]) 4 3 0).
    + apply flat_map_bits.
    + reflexivity.
    + discriminate.
    + reflexivity.
    + reflexivity.
    + vm_compute. reflexivity.
  - apply (proj2 bits_to_text_clamps [233; 33] [195; 169; 33]).
    + reflexivity.
    + unfold len. cbn [length]. lia.
    + reflexivity.
    + rewrite flat_map_bits_length. unfold frame_bytes. cbn [length app]. lia.
Defined.

(** ** Samples per bit *)

(** C3, counterexample. At the default configuration (8000 Hz, 300 baud)
    the synthesizer and the demodulator both use 26 samples per bit, while
    the integer nearest to 8000 / 300 = 26.67 is 27; and at 100 Hz and
    300 baud, both positive, the number of samples per bit is 0. *)
Lemma samples_per_bit_not_rounded :
  0 < sample_rate default_modem /\ 0 < baud_rate default_modem
  /\ encoder_samples_per_bit default_modem = 26
  /\ decoder_samples_per_bit default_modem (sample_rate default_modem) = 26
  /\ ~ is_nearest_integer (sample_rate default_modem) (baud_rate default_modem) 26
  /\ is_nearest_integer (sample_rate default_modem) (baud_rate default_modem) 27
  /\ 0 < sample_rate starved_modem /\ 0 < baud_rate starved_modem
  /\ encoder_samples_per_bit starved_modem = 0.
Proof.
  unfold is_nearest_integer. cbn [sample_rate baud_rate default_modem starved_modem].
  repeat split; try reflexivity; lia.
Qed.

(** C3, amended. For positive sample rate and baud rate the synthesizer
    generates, and the demodulator reads in each block, the integer part of
    sample rate / baud rate (the ratio truncated, not rounded); that number
    is at least 1 exactly when the sample rate is at least the baud rate. *)
Theorem samples_per_bit_is_floor m rate :
  0 < sample_rate m -> 0 < baud_rate m -> 0 < rate ->
  let n := encoder_samples_per_bit m in
  let d := decoder_samples_per_bit m rate in
  n * baud_rate m <= sample_rate m < (n + 1) * baud_rate m
  /\ (forall bit, exists s, bit_signal m bit = Returns s /\ len s = n)
  /\ d * baud_rate m <= rate < (d + 1) * baud_rate m
  /\ (forall audio_data bits k,
         demodulate m rate audio_data = Returns bits ->
         (k < length bits)%nat ->
         len (block m rate audio_data k) = d)
  /\ (1 <= n <-> baud_rate m <= sample_rate m)
  /\ (1 <= d <-> baud_rate m <= rate).
Proof.
  intros Hs Hb Hr n d.
  pose proof (int_div_floor (sample_rate m) (baud_rate m) ltac:(lia) Hb) as Hn.
  pose proof (int_div_floor rate (baud_rate m) ltac:(lia) Hb) as Hd.
  fold (encoder_samples_per_bit m) in Hn. fold n in Hn.
  fold (decoder_samples_per_bit m rate) in Hd. fold d in Hd.
  assert (Hn0 : 0 <= n) by (apply int_div_nonneg; lia).
  split; [exact Hn|].
  split; [intros bit; apply bit_signal_returns; [lia | exact Hn0]|].
  split; [exact Hd|]. split; [|split; nia].
  intros audio_data bits k Hdem Hk.
  pose proof (demodulate_returns_inv m rate audio_data bits ltac:(lia) Hb Hdem)
    as Hpos.
  destruct (demodulate_bit_count m rate audio_data ltac:(lia) Hpos)
    as (bits' & E & _ & Hlen).
  assert (bits' = bits) by congruence. subst bits'.
  apply block_length; [exact Hpos | lia].
Qed.

(** Witness of C3: the default configuration and a file at 8000 Hz. *)
Lemma samples_per_bit_is_floor_witness :
  26 * 300 <= 8000 < (26 + 1) * 300
  /\ encoder_samples_per_bit default_modem = 26
  /\ (forall bit, exists s, bit_signal default_modem bit = Returns s /\ len s = 26).
Proof.
  pose proof (samples_per_bit_is_floor default_modem 8000) as H.
  cbv zeta in H.
  change (encoder_samples_per_bit default_modem) with 26 in H.
  change (sample_rate default_modem) with 8000 in H.
  change (baud_rate default_modem) with 300 in H.
  destruct H as (H1 & H2 & _); [lia | lia | lia |].
  split; [exact H1|]. split; [reflexivity | exact H2].
Defined.

(** ** Block decisions *)

(** C4. Whenever the demodulator walks blocks (non-zero baud rate, at least
    one sample per bit), it emits one bit for each of the blocks it walks,
    [(total - 1) / samples_per_bit] of them for [total] samples after the
    alignment, and each of these bits is 1 if and only if the mark score of
    its block is strictly greater than the space score, and is 0 otherwise:
    equal scores give 0. Scores are real numbers. *)
Theorem demodulator_decision m rate audio_data :
  baud_rate m <> 0 -> 0 < decoder_samples_per_bit m rate ->
  exists bits,
    demodulate m rate audio_data = Returns bits
    /\ length bits
       = Z.to_nat ((len (aligned_audio m rate audio_data) - 1)
                   / decoder_samples_per_bit m rate)
    /\ decided_by_scores m rate audio_data bits.
Proof.
  intros Hb Hspb.
  destruct (demodulate_bit_count m rate audio_data Hb Hspb)
    as (bits & E & Hmap & Hlen).
  exists bits. split; [exact E|]. split; [exact Hlen|]. intros k Hk. cbv zeta.
  assert (Hk' : nth k bits 0 = decide_bit m rate (block m rate audio_data k)).
  { rewrite Hmap at 1.
    exact (nth_map_seq (fun j => decide_bit m rate (block m rate audio_data j))
             (length bits) k 0 Hk). }
  rewrite Hk'. unfold decide_bit.
  destruct (Rgt_dec _ _) as [Hgt|Hngt].
  - repeat split; intros; try reflexivity; try assumption; try lia;
      try contradiction; lra.
  - repeat split; intros; try reflexivity; try assumption; try lia;
      try contradiction.
Qed.

(** Witness of C4: three blocks of the square-wave configuration. *)
Lemma demodulator_decision_witness :
  exists bits,
    demodulate square_modem 4 (square_wave [1; 0; 1]) = Returns bits
    /\ length bits
       = Z.to_nat ((len (aligned_audio square_modem 4 (square_wave [1; 0; 1])) - 1)
                   / decoder_samples_per_bit square_modem 4)
    /\ decided_by_scores square_modem 4 (square_wave [1; 0; 1]) bits.
Proof.
  apply (demodulator_decision square_modem 4 (square_wave [1; 0; 1])).
  - cbn [baud_rate square_modem]. lia.
  - change (decoder_samples_per_bit square_modem 4) with 2. lia.
Defined.

(** ** Block walk *)

(** C8, evaluation at the failing input. At the default configuration a
    block has 26 samples; a recording of 52 silent samples holds two full
    blocks, and the demodulator emits one bit only: the walk ends with a
    whole block left. *)
Theorem demodulate_leaves_last_full_block :
  decoder_samples_per_bit default_modem 8000 = 26
  /\ len (aligned_audio default_modem 8000 (repeat 0%R 52)) = 2 * 26
  /\ exists bits,
       demodulate default_modem 8000 (repeat 0%R 52) = Returns bits
       /\ length bits = 1%nat.
Proof.
  assert (Hs : silent (repeat 0%R 52)).
  { apply Forall_forall. intros x Hx. apply repeat_spec in Hx. exact Hx. }
  assert (Hb : baud_rate default_modem <> 0) by (cbn; lia).
  assert (Hspb : 0 < decoder_samples_per_bit default_modem 8000)
    by (change (decoder_samples_per_bit default_modem 8000) with 26; lia).
  split; [reflexivity|].
  rewrite aligned_audio_silent by exact Hs.
  split; [reflexivity|].
  destruct (demodulate_bit_count default_modem 8000 (repeat 0%R 52) Hb Hspb)
    as (bits & E & _ & Hlen).
  exists bits. split; [exact E|]. rewrite Hlen.
  rewrite aligned_audio_silent by exact Hs. reflexivity.
Qed.

(** ** Tone detector *)

(** C9. The score of a segment at a frequency is the square of its dot
    product with the sine reference plus the square of its dot product with
    the cosine reference, both sampled on the segment's own time axis (from
    0 to its duration); so the score is never negative. *)
Theorem correlate_is_quadrature_energy signal freq rate :
  let t := time_axis (length signal) rate in
  let reference_sin := map (fun x => sin (2 * PI * IZR freq * x)) t in
  let reference_cos := map (fun x => cos (2 * PI * IZR freq * x)) t in
  correlate_with_frequency signal freq rate
  = (dot signal reference_sin ^ 2 + dot signal reference_cos ^ 2)%R
  /\ length t = length signal
  /\ (0 <= correlate_with_frequency signal freq rate)%R.
Proof.
  intros t reference_sin reference_cos.
  split; [apply correlate_dot|].
  split; [unfold t, time_axis; rewrite length_map, length_seq; reflexivity|].
  apply correlate_nonneg.
Qed.

(** * Further properties of the code *)

(** ** The two bit loops *)

(** X1. Packing the bits that [text_to_bits] emits for a sequence of bytes
    gives the bytes back, and up to seven further bits at the end are
    dropped. *)
Theorem pack_bits_inverts_byte_bits bs extra :
  Forall is_byte bs -> (length extra < 8)%nat ->
  pack_bits (flat_map byte_bits bs ++ extra) = bs.
Proof.
  intros Hbs Hextra.
  rewrite pack_flat_map_app by exact Hbs.
  rewrite pack_bits_short by exact Hextra. apply app_nil_r.
Qed.

(** Witness of X1: three bytes and five stray bits. *)
Lemma pack_bits_inverts_byte_bits_witness :
  pack_bits (flat_map byte_bits [0; 170; 255] ++ [1; 1; 0; 1; 0]) = [0; 170; 255].
Proof.
  apply (pack_bits_inverts_byte_bits [0; 170; 255] [1; 1; 0; 1; 0]).
  - repeat constructor; unfold is_byte; lia.
  - cbn [length]. lia.
Defined.

Lemma pack_bits_chunk c rest :
  length c = 8%nat -> pack_bits (c ++ rest) = pack_byte c 0 :: pack_bits rest.
Proof.
  intros Hc. rewrite pack_bits_app by (rewrite Hc; reflexivity).
  f_equal. rewrite pack_bits_chunks, Hc. reflexivity.
Qed.

Lemma byte_bits_pack_byte c :
  length c = 8%nat -> Forall is_bit c -> byte_bits (pack_byte c 0) = c.
Proof.
  intros Hc Hb.
  do 8 (destruct c as [|? c]; [discriminate Hc|]).
  destruct c; [|discriminate Hc].
  repeat match goal with
         | H : Forall is_bit (_ :: _) |- _ => inversion H; subst; clear H
         end.
  repeat match goal with
         | H : is_bit _ |- _ => destruct H; subst
         end; reflexivity.
Qed.

Lemma unpack_pack_bits n : forall bits,
  (length bits / 8 = n)%nat -> Forall is_bit bits ->
  flat_map byte_bits (pack_bits bits) = firstn (8 * n) bits.
Proof.
  induction n as [|n IH]; intros bits Hn Hb.
  - rewrite pack_bits_chunks, Hn. reflexivity.
  - assert (Hlen : (8 <= length bits)%nat).
    { destruct (Nat.lt_ge_cases (length bits) 8) as [H|H]; [|exact H].
      rewrite Nat.div_small in Hn by exact H. discriminate. }
    rewrite <- (firstn_skipn 8 bits) at 1.
    assert (Hc : length (firstn 8 bits) = 8%nat)
      by (rewrite length_firstn; lia).
    destruct (Forall_firstn_skipn is_bit 8 bits Hb) as [Hb1 Hb2].
    rewrite pack_bits_chunk by exact Hc. cbn [flat_map].
    rewrite byte_bits_pack_byte by assumption.
    rewrite IH; [| |exact Hb2].
    + rewrite <- (firstn_skipn 8 bits) at 3.
      rewrite firstn_app, Hc.
      rewrite (firstn_all2 (n := (8 * S n)%nat)) by lia.
      f_equal. f_equal. lia.
    + rewrite length_skipn.
      replace (length bits) with (1 * 8 + (length bits - 8))%nat in Hn by lia.
      rewrite Nat.div_add_l in Hn by lia. lia.
Qed.

(** X2. Conversely, expanding the bytes packed from a sequence of bits gives
    back the bits of every complete group of eight, in order. *)
Theorem byte_bits_inverts_pack_bits bits :
  Forall is_bit bits ->
  flat_map byte_bits (pack_bits bits) = firstn (8 * (length bits / 8)) bits.
Proof. intros H. apply unpack_pack_bits; [reflexivity | exact H]. Qed.

(** Witness of X2: nineteen bits, two complete groups. *)
Lemma byte_bits_inverts_pack_bits_witness :
  flat_map byte_bits
    (pack_bits [1; 0; 1; 1; 0; 0; 1; 0;  0; 0; 0; 1; 1; 1; 0; 1;  1; 1; 0])
  = [1; 0; 1; 1; 0; 0; 1; 0;  0; 0; 0; 1; 1; 1; 0; 1].
Proof.
  apply (byte_bits_inverts_pack_bits
           [1; 0; 1; 1; 0; 0; 1; 0;  0; 0; 0; 1; 1; 1; 0; 1;  1; 1; 0]).
  repeat (apply Forall_cons; [first [left; reflexivity | right; reflexivity]|]).
  apply Forall_nil.
Defined.

(** ** Deserialization never fails and never invents data *)

Lemma bits_to_text_returns bits :
  Forall is_bit bits -> exists text, bits_to_text bits = Returns text.
Proof.
  intros Hb.
  destruct (Z.eq_dec (find_start_pos (pack_bits bits)) (-1)) as [E|Hne].
  { exists []. unfold bits_to_text. destruct (_ <? 48); [reflexivity|].
    rewrite E. reflexivity. }
  set (p := find_start_pos (pack_bits bits)) in *.
  destruct (find_start_pos_found _ p eq_refl Hne) as [Hrange _].
  destruct (Z_lt_le_dec (p + 1) (len (pack_bits bits))) as [Hlt|Hge].
  - destruct (nth_error (pack_bits bits) (Z.to_nat p)) as [lo|] eqn:Elo.
    2:{ apply nth_error_None in Elo. unfold len in *. lia. }
    destruct (nth_error (pack_bits bits) (Z.to_nat (p + 1))) as [hi|] eqn:Ehi.
    2:{ apply nth_error_None in Ehi. unfold len in *. lia. }
    eexists. apply (bits_to_text_at bits p lo hi); try assumption; try reflexivity.
    apply Forall_firstn_skipn, Forall_firstn_skipn, pack_bits_bytes, Hb.
  - exists []. unfold bits_to_text. destruct (_ <? 48); [reflexivity|].
    fold p. destruct (Z.eqb_spec p (-1)); [reflexivity|].
    rewrite Z.geb_leb. destruct (Z.leb_spec (len (pack_bits bits)) (p + 2));
      [reflexivity | lia].
Qed.

(** X3. On every sequence of bits [bits_to_text] returns a string: neither
    the two index reads, nor the conversion to [bytes], nor the UTF-8
    decoding raises. *)
Theorem bits_to_text_never_raises bits :
  Forall is_bit bits ->
  exists text, bits_to_text bits = Returns text.
Proof. apply bits_to_text_returns. Qed.

(** Witness of X3: a marker whose length field is cut after one byte. *)
Lemma bits_to_text_never_raises_witness :
  exists text,
    bits_to_text (flat_map byte_bits [0xAA; 0x55; 0xAA; 0x55; 7]
                  ++ [1; 0; 1; 1; 1; 1; 1; 1])
    = Returns text.
Proof.
  apply (bits_to_text_never_raises
           (flat_map byte_bits [0xAA; 0x55; 0xAA; 0x55; 7]
            ++ [1; 0; 1; 1; 1; 1; 1; 1])).
  apply Forall_app. split; [apply flat_map_bits|].
  repeat (apply Forall_cons; [first [left; reflexivity | right; reflexivity]|]).
  apply Forall_nil.
Defined.

Lemma decode_ignore_length n : forall bs,
  (length bs <= n)%nat ->
  (length (UTF8.decode_ignore bs) <= length bs)%nat.
Proof.
  induction n as [|n IH]; intros bs Hn.
  - destruct bs; [cbn; lia | cbn [length] in Hn; lia].
  - destruct bs as [|b1 r1]; [cbn; lia|].
    cbn [UTF8.decode_ignore]. cbn [length] in Hn.
    pose proof (IH r1 ltac:(lia)) as H1.
    destruct r1 as [|b2 r2].
    { repeat match goal with
             | |- context [if ?c then _ else _] => destruct c
             end; cbn [length] in *; lia. }
    cbn [length] in Hn. pose proof (IH r2 ltac:(lia)) as H2.
    destruct r2 as [|b3 r3].
    { repeat match goal with
             | |- context [if ?c then _ else _] => destruct c
             end; cbn [length] in *; lia. }
    cbn [length] in Hn. pose proof (IH r3 ltac:(lia)) as H3.
    destruct r3 as [|b4 r4].
    { repeat match goal with
             | |- context [if ?c then _ else _] => destruct c
             end; cbn [length] in *; lia. }
    cbn [length] in Hn. pose proof (IH r4 ltac:(lia)) as H4.
    repeat match goal with
           | |- context [if ?c then _ else _] => destruct c
           end; cbn [length] in *; lia.
Qed.

(** X4. When [bits_to_text] finds a marker and reads the length field
    [lo + 256 * hi], the string it returns has at most that many
    characters: nothing past the announced length is decoded. *)
Theorem bits_to_text_respects_length bits p lo hi text :
  Forall is_bit bits ->
  find_start_pos (pack_bits bits) = p -> p <> -1 ->
  nth_error (pack_bits bits) (Z.to_nat p) = Some lo ->
  nth_error (pack_bits bits) (Z.to_nat (p + 1)) = Some hi ->
  bits_to_text bits = Returns text ->
  len text <= lo + 256 * hi.
Proof.
  intros Hb Hp Hne Hlo Hhi Ht.
  pose proof (bits_to_text_at bits p lo hi) as H. cbv zeta in H.
  rewrite H in Ht; try assumption.
  2:{ apply Forall_firstn_skipn, Forall_firstn_skipn, pack_bits_bytes, Hb. }
  assert (Et : text = UTF8.decode_ignore
                       (firstn (Z.to_nat (lo + 256 * hi))
                          (skipn (Z.to_nat (p + 2)) (pack_bits bits))))
    by congruence.
  rewrite Et. clear Et Ht H.
  assert (Hbyte : Forall is_byte (pack_bits bits)) by (apply pack_bits_bytes, Hb).
  assert (0 <= lo /\ 0 <= hi).
  { rewrite Forall_forall in Hbyte. split.
    - apply nth_error_In in Hlo. apply Hbyte in Hlo. unfold is_byte in Hlo. lia.
    - apply nth_error_In in Hhi. apply Hbyte in Hhi. unfold is_byte in Hhi. lia. }
  match goal with
  | |- len (UTF8.decode_ignore ?d) <= _ =>
      pose proof (decode_ignore_length (length d) d (le_n _)) as Hd;
      pose proof (firstn_le_length (Z.to_nat (lo + 256 * hi))
                    (skipn (Z.to_nat (p + 2)) (pack_bits bits))) as Hf
  end.
  unfold len. lia.
Qed.

(** Witness of X4: a frame announcing two bytes followed by five. *)
Lemma bits_to_text_respects_length_witness :
  len [72; 105] <= 2 + 256 * 0.
Proof.
  apply (bits_to_text_respects_length
           (flat_map byte_bits [0xAA; 0x55; 0xAA; 0x55; 2; 0; 72; 105; 33; 33; 33])
           4 2 0 [72; 105]).
  - apply flat_map_bits.
  - reflexivity.
  - discriminate.
  - reflexivity.
  - reflexivity.
  - reflexivity.
Defined.

Lemma text_to_bits_returns_inv text bits :
  text_to_bits text = Returns bits -> bits <> [] ->
  exists payload,
    UTF8.encode text = Some payload /\ len payload <= 65535
    /\ bits = flat_map byte_bits (frame_bytes payload).
Proof.
  intros H Hne. destruct (UTF8.encode text) as [payload|] eqn:He.
  - exists payload. destruct (Z_le_gt_dec (len payload) 65535) as [Hl|Hl].
    + rewrite (text_to_bits_frame _ _ He Hl) in H. split; [reflexivity|].
      split; [exact Hl | congruence].
    + unfold text_to_bits in H. rewrite He in H. cbv zeta in H.
      rewrite to_bytes_2_little_overflow in H by lia. discriminate H.
  - unfold text_to_bits in H. rewrite He in H. congruence.
Qed.

(** X5. [text_to_bits] never gives two texts the same non-empty bit
    sequence: a sequence it returns determines the text. *)
Theorem text_to_bits_injective text1 text2 bits :
  text_to_bits text1 = Returns bits ->
  text_to_bits text2 = Returns bits ->
  bits <> [] ->
  text1 = text2.
Proof.
  intros H1 H2 Hne.
  destruct (text_to_bits_returns_inv _ _ H1 Hne) as (p1 & He1 & Hl1 & E1).
  destruct (text_to_bits_returns_inv _ _ H2 Hne) as (p2 & He2 & Hl2 & E2).
  pose proof (frame_roundtrip _ _ [] He1 Hl1) as R1.
  pose proof (frame_roundtrip _ _ [] He2 Hl2) as R2.
  rewrite <- E1 in R1. rewrite <- E2 in R2. congruence.
Qed.

(** Witness of X5: the frame of ["A"]. *)
Lemma text_to_bits_injective_witness : [65] = [65].
Proof.
  apply (text_to_bits_injective [65] [65] frame_bits_A).
  - reflexivity.
  - reflexivity.
  - discriminate.
Defined.

(** ** Resynchronisation on the first marker *)

Lemma find_start_pos_first junk post :
  has_marker_window (junk ++ [0xAA; 0x55; 0xAA]) = false ->
  find_start_pos (junk ++ start_marker ++ post) = len junk + 4.
Proof.
  intros Hno. unfold find_start_pos. rewrite py_range_0_n_1.
  set (bytes_data := junk ++ start_marker ++ post).
  assert (Hlen : length bytes_data = (length junk + (4 + length post))%nat)
    by (unfold bytes_data; rewrite !length_app; reflexivity).
  replace (Z.to_nat (len bytes_data - 3))
    with (length junk + S (length post))%nat by (unfold len; lia).
  rewrite seq_app, map_app, find_app. rewrite find_all_false.
  - cbn [Nat.add seq map find].
    replace (list_eqb (slice bytes_data (Z.of_nat (length junk))
                         (Z.of_nat (length junk) + 4)) start_marker)
      with true; [reflexivity|].
    symmetry. apply list_eqb_eq. unfold slice, bytes_data.
    replace (Z.to_nat (Z.of_nat (length junk) + 4 - Z.of_nat (length junk)))
      with 4%nat by lia.
    rewrite Nat2Z.id, skipn_app, Nat.sub_diag, skipn_all. reflexivity.
  - intros i Hi. apply in_map_iff in Hi. destruct Hi as [k [<- Hk]].
    apply in_seq in Hk.
    destruct (list_eqb (slice bytes_data (Z.of_nat k) (Z.of_nat k + 4))
                start_marker) eqn:E; [|reflexivity].
    exfalso. apply list_eqb_eq in E. unfold slice in E.
    replace (Z.to_nat (Z.of_nat k + 4 - Z.of_nat k)) with 4%nat in E by lia.
    rewrite Nat2Z.id in E.
    assert (Ew : firstn 4 (skipn k (junk ++ [0xAA; 0x55; 0xAA])) = start_marker).
    { rewrite <- E. unfold bytes_data.
      change (start_marker ++ post) with ([0xAA; 0x55; 0xAA] ++ 0x55 :: post).
      rewrite app_assoc. set (head := junk ++ [0xAA; 0x55; 0xAA]).
      assert (Hh : length head = (length junk + 3)%nat)
        by (unfold head; rewrite length_app; reflexivity).
      rewrite (skipn_app k head), (firstn_app 4 (skipn k head)).
      rewrite length_skipn, Hh.
      replace (4 - (length junk + 3 - k))%nat with O by lia.
      cbn [firstn]. rewrite app_nil_r. reflexivity. }
    pose proof (slice_split (junk ++ [0xAA; 0x55; 0xAA]) k 4 start_marker Ew eq_refl)
      as Hs.
    rewrite Hs, has_marker_window_app in Hno. discriminate.
Qed.

(** X6. The marker search resynchronises: whole bytes in front of a frame
    that do not complete a start marker early are skipped, and the text is
    decoded all the same, whatever bits follow the frame. *)
Theorem frame_roundtrip_after_junk text payload junk tail :
  UTF8.encode text = Some payload -> len payload <= 65535 ->
  Forall is_byte junk ->
  has_marker_window (junk ++ [0xAA; 0x55; 0xAA]) = false ->
  bits_to_text (flat_map byte_bits (junk ++ frame_bytes payload) ++ tail)
  = Returns text.
Proof.
  intros He Hl Hj Hno. pose proof (encode_bytes _ _ He) as Hb.
  set (bits := flat_map byte_bits (junk ++ frame_bytes payload) ++ tail).
  assert (Hpack : pack_bits bits
                  = junk ++ start_marker
                    ++ ([len payload mod 256; len payload / 256]
                        ++ payload ++ pack_bits tail)).
  { unfold bits. rewrite pack_flat_map_app.
    - unfold frame_bytes. rewrite <- !app_assoc. reflexivity.
    - apply Forall_app. split; [exact Hj | apply frame_bytes_ok; assumption]. }
  assert (Hfind : find_start_pos (pack_bits bits) = len junk + 4)
    by (rewrite Hpack; apply find_start_pos_first, Hno).
  assert (Hlo : nth_error (pack_bits bits) (Z.to_nat (len junk + 4))
                = Some (len payload mod 256)).
  { rewrite Hpack.
    replace (Z.to_nat (len junk + 4)) with (length junk + 4)%nat
      by (unfold len; lia).
    rewrite nth_error_app2 by lia.
    replace (length junk + 4 - length junk)%nat with 4%nat by lia.
    reflexivity. }
  assert (Hhi : nth_error (pack_bits bits) (Z.to_nat (len junk + 4 + 1))
                = Some (len payload / 256)).
  { rewrite Hpack.
    replace (Z.to_nat (len junk + 4 + 1)) with (length junk + 5)%nat
      by (unfold len; lia).
    rewrite nth_error_app2 by lia.
    replace (length junk + 5 - length junk)%nat with 5%nat by lia.
    reflexivity. }
  assert (Hdata : firstn (Z.to_nat (len payload mod 256 + 256 * (len payload / 256)))
                    (skipn (Z.to_nat (len junk + 4 + 2)) (pack_bits bits))
                  = payload).
  { rewrite Hpack, frame_length_field by (unfold len in *; lia).
    replace (Z.to_nat (len payload)) with (length payload) by (unfold len; lia).
    replace (Z.to_nat (len junk + 4 + 2)) with (length junk + 6)%nat
      by (unfold len; lia).
    rewrite skipn_app, skipn_all2 by lia.
    replace (length junk + 6 - length junk)%nat with 6%nat by lia.
    change (skipn 6 (start_marker
                     ++ [len payload mod 256; len payload / 256]
                     ++ payload ++ pack_bits tail))
      with (payload ++ pack_bits tail).
    cbn [app]. rewrite firstn_app, firstn_all, Nat.sub_diag, firstn_0.
    apply app_nil_r. }
  pose proof (bits_to_text_at bits (len junk + 4)
                (len payload mod 256) (len payload / 256)) as H.
  cbv zeta in H. rewrite Hdata, (decode_encode _ _ He) in H.
  apply H; try assumption. unfold len. lia.
Qed.

(** Witness of X6: the frame of "Hi" after three bytes of noise, the last
    of which is 0xAA. *)
Lemma frame_roundtrip_after_junk_witness :
  bits_to_text (flat_map byte_bits ([0x55; 0x00; 0xAA] ++ frame_bytes [72; 105])
                ++ [0; 0; 0])
  = Returns [72; 105].
Proof.
  apply (frame_roundtrip_after_junk [72; 105] [72; 105] [0x55; 0x00; 0xAA] [0; 0; 0]).
  - reflexivity.
  - unfold len. cbn [length]. lia.
  - repeat constructor; unfold is_byte; lia.
  - reflexivity.
Defined.

(** ** The synthesized waveform *)

Lemma silence_duration_nonneg m : 0 <= sample_rate m -> 0 <= silence_duration m.
Proof. intros H. unfold silence_duration. apply Z.quot_pos; lia. Qed.

Lemma tone_sample_bounded x : (Rabs (amplitude * sin x) <= amplitude)%R.
Proof.
  unfold amplitude. rewrite Rabs_mult.
  rewrite (Rabs_pos_eq (8 / 10)) by lra.
  assert (Rabs (sin x) <= 1)%R by (apply Rabs_le; pose proof (SIN_bound x); lra).
  nra.
Qed.

Lemma bit_signal_bounded m bit s :
  bit_signal m bit = Returns s ->
  Forall (fun x => (Rabs x <= amplitude)%R) s.
Proof.
  unfold bit_signal. destruct (baud_rate m =? 0); [discriminate|].
  destruct (linspace _ _ _) as [t|e]; [|discriminate].
  cbn [bind]. intros [= <-]. apply Forall_forall. intros x Hx.
  apply in_map_iff in Hx. destruct Hx as [y [<- _]]. apply tone_sample_bounded.
Qed.

Lemma extend_bit_signals_bounded m bits : forall tones,
  extend_bit_signals m bits = Returns tones ->
  Forall (fun x => (Rabs x <= amplitude)%R) tones.
Proof.
  induction bits as [|bit bits IH]; intros tones H.
  - injection H as <-. constructor.
  - cbn [extend_bit_signals] in H.
    destruct (bit_signal m bit) as [s|e] eqn:Es; [|discriminate].
    destruct (extend_bit_signals m bits) as [r|e] eqn:Er; [|discriminate].
    cbn [bind] in H. injection H as <-.
    apply Forall_app. split; [exact (bit_signal_bounded _ _ _ Es) | eauto].
Qed.

Lemma silence_bounded n : Forall (fun x => (Rabs x <= amplitude)%R) (repeat 0%R n).
Proof.
  apply Forall_forall. intros x Hx. apply repeat_spec in Hx. subst x.
  rewrite Rabs_R0. unfold amplitude. lra.
Qed.

(** X7. For an encodable text of at most 65535 bytes and positive rates,
    [encode_to_audio] produces [int(0.1 * sample_rate)] zero samples, then
    [int(sample_rate / baud_rate)] samples for each of the
    [48 + 8 * length] bits, then the same run of zero samples. *)
Theorem encode_to_audio_layout m text payload :
  UTF8.encode text = Some payload -> len payload <= 65535 ->
  0 < sample_rate m -> 0 < baud_rate m ->
  exists tones,
    encode_to_audio m text
    = Returns (Some (repeat 0%R (Z.to_nat (silence_duration m))
                     ++ tones
                     ++ repeat 0%R (Z.to_nat (silence_duration m))))
    /\ len tones = (48 + 8 * len payload) * encoder_samples_per_bit m.
Proof.
  intros He Hl Hs Hb.
  destruct (text_to_bits_nonempty _ _ He Hl) as (b & bits & E).
  assert (Hn : 0 <= encoder_samples_per_bit m) by (apply int_div_nonneg; lia).
  destruct (extend_bit_signals_returns m (b :: bits) ltac:(lia) Hn)
    as (tones & Et & Hlen).
  exists tones. split.
  - unfold encode_to_audio. rewrite E. cbn [bind].
    rewrite np_zeros_returns by (apply silence_duration_nonneg; lia).
    cbn [bind]. rewrite Et. reflexivity.
  - rewrite Hlen. f_equal.
    assert (Eb : b :: bits = flat_map byte_bits (frame_bytes payload))
      by (pose proof (text_to_bits_frame _ _ He Hl); congruence).
    rewrite Eb. unfold len. rewrite flat_map_bits_length. unfold frame_bytes.
    rewrite !length_app. cbn [length]. lia.
Qed.

(** Witness of X7: "Hi" at the default configuration, 800 + 64 * 26 + 800
    samples. *)
Lemma encode_to_audio_layout_witness :
  exists tones,
    encode_to_audio default_modem [72; 105]
    = Returns (Some (repeat 0%R 800 ++ tones ++ repeat 0%R 800))
    /\ len tones = 64 * 26.
Proof.
  apply (encode_to_audio_layout default_modem [72; 105] [72; 105]).
  - reflexivity.
  - unfold len. cbn [length]. lia.
  - cbn [sample_rate default_modem]. lia.
  - cbn [baud_rate default_modem]. lia.
Defined.

(** X8. Every sample of a waveform that [encode_to_audio] produces lies
    between -0.8 and 0.8, so scaling by 32767 stays within 16-bit range. *)
Theorem encode_to_audio_amplitude m text audio_data :
  encode_to_audio m text = Returns (Some audio_data) ->
  Forall (fun x => (Rabs x <= amplitude)%R) audio_data.
Proof.
  unfold encode_to_audio.
  destruct (text_to_bits text) as [[|b bits]|e]; cbn [bind]; try discriminate.
  destruct (np_zeros (silence_duration m)) as [z|e] eqn:Ez; [|discriminate].
  cbn [bind].
  destruct (extend_bit_signals m (b :: bits)) as [tones|e] eqn:Et; [|discriminate].
  cbn [bind]. intros [= <-].
  assert (Hz : Forall (fun x => (Rabs x <= amplitude)%R) z).
  { unfold np_zeros in Ez. destruct (_ <? 0); [discriminate|].
    injection Ez as <-. apply silence_bounded. }
  repeat (apply Forall_app; split); try assumption.
  exact (extend_bit_signals_bounded _ _ _ Et).
Qed.

(** Witness of X8: the waveform of "A" with one sample per bit. *)
Lemma encode_to_audio_amplitude_witness :
  Forall (fun x => (Rabs x <= amplitude)%R)
         (repeat 0%R 800
          ++ flat_map (fun bit =>
                         [(amplitude
                           * sin (2 * PI * IZR (bit_freq one_sample_modem bit) * 0))%R])
                      frame_bits_A
          ++ repeat 0%R 800).
Proof.
  apply (encode_to_audio_amplitude one_sample_modem [65]).
  reflexivity.
Defined.

Lemma linspace_n_closed start stop n :
  (2 <= n)%nat ->
  linspace_n start stop n
  = map (fun k => (INR k * ((stop - start) / INR (n - 1)) + start)%R) (seq 0 n).
Proof.
  intros Hn. destruct n as [|[|n]]; try lia.
  rewrite linspace_n_SS. replace (S (S n) - 1)%nat with (S n) by lia.
  rewrite (seq_S (S n) 0), map_app. cbn [map Nat.add]. f_equal. f_equal.
  assert (INR (S n) <> 0%R) by (apply not_0_INR; lia).
  field. assumption.
Qed.

(** X9. With at least two samples per bit, sample [k] of the tone of a bit
    is [0.8 * sin(2 pi f t)] at the time [t = k / ((n - 1) * baud_rate)],
    where [n] is the number of samples per bit and [f] the frequency of the
    bit: every bit starts at phase 0 with a zero sample, and its last sample
    is taken at the full bit period [1 / baud_rate]. *)
Theorem bit_signal_samples m bit :
  baud_rate m <> 0 -> 2 <= encoder_samples_per_bit m ->
  exists s,
    bit_signal m bit = Returns s
    /\ len s = encoder_samples_per_bit m
    /\ (forall k, (k < length s)%nat ->
          nth k s 0%R
          = (amplitude
             * sin (2 * PI * IZR (bit_freq m bit)
                    * (INR k / (IZR (encoder_samples_per_bit m - 1)
                                * IZR (baud_rate m)))))%R)
    /\ nth 0 s 0%R = 0%R.
Proof.
  intros Hb Hn. set (n := encoder_samples_per_bit m) in *.
  assert (Hbr : IZR (baud_rate m) <> 0%R) by (apply not_0_IZR; exact Hb).
  assert (Hn1 : IZR (n - 1) <> 0%R) by (apply not_0_IZR; lia).
  assert (Enat : INR (Z.to_nat n - 1) = IZR (n - 1)).
  { rewrite INR_IZR_INZ. f_equal. lia. }
  unfold bit_signal. destruct (Z.eqb_spec (baud_rate m) 0); [contradiction|].
  fold n. rewrite linspace_returns by lia. cbn [bind].
  rewrite linspace_n_closed by lia. rewrite map_map.
  eexists. split; [reflexivity|].
  assert (Hform : forall k, (k < Z.to_nat n)%nat ->
            nth k (map (fun k0 =>
                          (amplitude
                           * sin (2 * PI * IZR (bit_freq m bit)
                                  * (INR k0 * ((1 / IZR (baud_rate m) - 0)
                                               / INR (Z.to_nat n - 1)) + 0)))%R)
                       (seq 0 (Z.to_nat n))) 0%R
            = (amplitude
               * sin (2 * PI * IZR (bit_freq m bit)
                      * (INR k / (IZR (n - 1) * IZR (baud_rate m)))))%R).
  { intros k Hk. rewrite nth_map_seq by exact Hk. rewrite Enat.
    f_equal. f_equal. field. split; assumption. }
  split; [unfold len; rewrite length_map, length_seq; lia|].
  split.
  - intros k Hk. rewrite length_map, length_seq in Hk. apply Hform, Hk.
  - rewrite Hform by lia. cbn [INR].
    replace (2 * PI * IZR (bit_freq m bit) * (0 / (IZR (n - 1) * IZR (baud_rate m))))%R
      with 0%R by (field; split; assumption).
    rewrite sin_0. unfold amplitude. lra.
Qed.

(** Witness of X9: the default configuration, 26 samples per bit. *)
Lemma bit_signal_samples_witness :
  exists s,
    bit_signal default_modem 1 = Returns s
    /\ len s = 26
    /\ (forall k, (k < length s)%nat ->
          nth k s 0%R
          = (amplitude * sin (2 * PI * IZR 1270 * (INR k / (IZR 25 * IZR 300))))%R)
    /\ nth 0 s 0%R = 0%R.
Proof.
  apply (bit_signal_samples default_modem 1).
  - cbn [baud_rate default_modem]. lia.
  - change (encoder_samples_per_bit default_modem) with 26. lia.
Defined.

(** ** Alignment *)

(** X11. The silence-skipping loop stops at the first sample whose
    magnitude exceeds 0.01 and backs off by a quarter of a block, but not
    before the start of the recording. *)
Theorem find_start_idx_first_loud lead x rest samples_per_bit :
  Forall quiet lead -> (Rabs x > threshold)%R ->
  find_start_idx (lead ++ x :: rest) samples_per_bit
  = Z.max 0 (len lead - samples_per_bit / 4).
Proof. apply find_start_idx_split. Qed.

(** Witness of X11: two quiet samples before a loud one; the back-off of
    6 samples is cut at the start of the recording. *)
Lemma find_start_idx_first_loud_witness :
  find_start_idx ([0%R; 0%R] ++ 1%R :: [0%R]) 26 = Z.max 0 (len [0%R; 0%R] - 26 / 4).
Proof.
  apply (find_start_idx_first_loud [0%R; 0%R] 1%R [0%R] 26).
  - repeat constructor; unfold quiet, threshold; rewrite Rabs_R0; lra.
  - unfold threshold. rewrite Rabs_R1. lra.
Defined.

(** X12. Quiet samples added in front of a recording change nothing, as
    long as the recording already holds a quarter of a block before its
    first loud sample: the aligned samples, the bits and the decoded text
    are the same. *)
Theorem decode_ignores_leading_quiet m rate extra lead x rest :
  Forall quiet extra -> Forall quiet lead -> (Rabs x > threshold)%R ->
  decoder_samples_per_bit m rate / 4 <= len lead ->
  aligned_audio m rate (extra ++ lead ++ x :: rest)
  = aligned_audio m rate (lead ++ x :: rest)
  /\ demodulate m rate (extra ++ lead ++ x :: rest)
     = demodulate m rate (lead ++ x :: rest)
  /\ decode_from_audio m rate (extra ++ lead ++ x :: rest)
     = decode_from_audio m rate (lead ++ x :: rest).
Proof.
  intros He Hl Hx Hq.
  assert (Ha : aligned_audio m rate (extra ++ lead ++ x :: rest)
               = aligned_audio m rate (lead ++ x :: rest)).
  { unfold aligned_audio. rewrite app_assoc.
    rewrite !find_start_idx_split;
      try assumption; [|apply Forall_app; split; assumption].
    rewrite <- app_assoc. unfold len in *. rewrite length_app.
    set (q := decoder_samples_per_bit m rate / 4) in *.
    replace (Z.to_nat (Z.max 0 (Z.of_nat (length extra + length lead) - q)))
      with (length extra + Z.to_nat (Z.max 0 (Z.of_nat (length lead) - q)))%nat
      by lia.
    rewrite skipn_app, skipn_all2 by lia.
    replace (length extra + Z.to_nat (Z.max 0 (Z.of_nat (length lead) - q))
             - length extra)%nat
      with (Z.to_nat (Z.max 0 (Z.of_nat (length lead) - q))) by lia.
    reflexivity. }
  assert (Hd : demodulate m rate (extra ++ lead ++ x :: rest)
               = demodulate m rate (lead ++ x :: rest))
    by (unfold demodulate; rewrite Ha; reflexivity).
  split; [exact Ha|]. split; [exact Hd|].
  unfold decode_from_audio. rewrite Hd. reflexivity.
Qed.

(** Witness of X12: three zero samples in front of a square wave. *)
Lemma decode_ignores_leading_quiet_witness :
  aligned_audio square_modem 4 ([0; 0; 0] ++ [0] ++ 1 :: [1; 0; 0])%R
  = aligned_audio square_modem 4 ([0] ++ 1 :: [1; 0; 0])%R
  /\ demodulate square_modem 4 ([0; 0; 0] ++ [0] ++ 1 :: [1; 0; 0])%R
     = demodulate square_modem 4 ([0] ++ 1 :: [1; 0; 0])%R
  /\ decode_from_audio square_modem 4 ([0; 0; 0] ++ [0] ++ 1 :: [1; 0; 0])%R
     = decode_from_audio square_modem 4 ([0] ++ 1 :: [1; 0; 0])%R.
Proof.
  apply (decode_ignores_leading_quiet square_modem 4
           [0; 0; 0]%R [0%R] 1%R [1; 0; 0]%R).
  - repeat constructor; unfold quiet, threshold; rewrite Rabs_R0; lra.
  - repeat constructor; unfold quiet, threshold; rewrite Rabs_R0; lra.
  - unfold threshold. rewrite Rabs_R1. lra.
  - change (decoder_samples_per_bit square_modem 4 / 4) with 0.
    unfold len. cbn [length]. lia.
Defined.

(** ** Decoding degenerate recordings *)

Lemma silent_repeat n : silent (repeat 0%R n).
Proof.
  apply Forall_forall. intros x Hx. apply repeat_spec in Hx. exact Hx.
Qed.

(** X13. A recording of zero samples only, of any length and also empty, is
    decoded to the empty string, at every configuration and sample rate. *)
Theorem decode_from_audio_silence m rate audio_data :
  silent audio_data -> decode_from_audio m rate audio_data = [].
Proof. apply decode_silent. Qed.

(** Witness of X13: a quarter of a second of silence at 8000 Hz. *)
Lemma decode_from_audio_silence_witness :
  decode_from_audio default_modem 8000 (repeat 0%R 2000) = [].
Proof.
  apply (decode_from_audio_silence default_modem 8000 (repeat 0%R 2000)).
  apply silent_repeat.
Defined.

(** X14. When the file has fewer samples per second than the configured
    baud rate, the block size is 0, the block loop raises [ValueError], and
    [decode_from_audio] turns it into the empty string whatever the
    samples. *)
Theorem decode_from_audio_rate_below_baud m rate audio_data :
  0 <= rate < baud_rate m ->
  decoder_samples_per_bit m rate = 0
  /\ demodulate m rate audio_data = Raises ValueError
  /\ decode_from_audio m rate audio_data = [].
Proof.
  intros H.
  assert (E : decoder_samples_per_bit m rate = 0)
    by (unfold decoder_samples_per_bit, int_div; apply Z.quot_small; exact H).
  assert (Ed : demodulate m rate audio_data = Raises ValueError).
  { unfold demodulate. destruct (Z.eqb_spec (baud_rate m) 0); [lia|].
    rewrite E. reflexivity. }
  split; [exact E|]. split; [exact Ed|].
  unfold decode_from_audio. rewrite Ed. reflexivity.
Qed.

(** Witness of X14: a file at 100 Hz read at 300 baud. *)
Lemma decode_from_audio_rate_below_baud_witness :
  decoder_samples_per_bit default_modem 100 = 0
  /\ demodulate default_modem 100 [1%R; 0%R; 1%R] = Raises ValueError
  /\ decode_from_audio default_modem 100 [1%R; 0%R; 1%R] = [].
Proof.
  apply (decode_from_audio_rate_below_baud default_modem 100 [1%R; 0%R; 1%R]).
  cbn [baud_rate default_modem]. lia.
Defined.

Lemma decide_bit_is_bit m rate segment : is_bit (decide_bit m rate segment).
Proof.
  unfold decide_bit. destruct (Rgt_dec _ _); [right | left]; reflexivity.
Qed.

Lemma demodulate_is_bits m rate audio_data bits :
  demodulate m rate audio_data = Returns bits -> Forall is_bit bits.
Proof.
  unfold demodulate. destruct (baud_rate m =? 0); [discriminate|].
  destruct (decoder_samples_per_bit m rate =? 0); [discriminate|].
  intros [= <-].
  generalize (py_range 0
                (len (aligned_audio m rate audio_data)
                 - decoder_samples_per_bit m rate)
                (decoder_samples_per_bit m rate)) as idxs.
  induction idxs as [|i idxs IH]; cbn [demodulate_loop]; [constructor|].
  destruct (_ <? _); [constructor|].
  constructor; [apply decide_bit_is_bit | exact IH].
Qed.

(** X15. With a non-zero baud rate and at least one sample per bit the
    demodulator returns a sequence of zeros and ones, never more bits than
    the aligned recording has full blocks and at most one fewer; a
    recording of at most one block gives no bits, not an error. *)
Theorem demodulate_bit_bounds m rate audio_data :
  baud_rate m <> 0 -> 0 < decoder_samples_per_bit m rate ->
  let samples_per_bit := decoder_samples_per_bit m rate in
  let total_samples := len (aligned_audio m rate audio_data) in
  exists bits,
    demodulate m rate audio_data = Returns bits
    /\ Forall is_bit bits
    /\ total_samples / samples_per_bit - 1 <= len bits
       <= total_samples / samples_per_bit
    /\ (total_samples <= samples_per_bit -> bits = []).
Proof.
  intros Hb Hspb spb total.
  destruct (demodulate_bit_count m rate audio_data Hb Hspb) as (bits & E & _ & Hlen).
  fold spb in Hlen. fold total in Hlen.
  exists bits. split; [exact E|].
  split; [exact (demodulate_is_bits _ _ _ _ E)|].
  assert (Htot : 0 <= total) by (unfold total, len; lia).
  assert (Hlenz : len bits = Z.max 0 ((total - 1) / spb)) by (unfold len; lia).
  assert (Hs : 0 < spb) by exact Hspb.
  clearbody spb total.
  assert (Hup : (total - 1) / spb <= total / spb)
    by (apply Z.div_le_mono; lia).
  assert (Hlow : total / spb - 1 <= (total - 1) / spb).
  { replace (total / spb - 1) with ((total - spb) / spb).
    - apply Z.div_le_mono; lia.
    - replace (total - spb) with (total + (-1) * spb) by lia.
      rewrite Z.div_add by lia. lia. }
  assert (Hq : 0 <= total / spb) by (apply Z.div_pos; lia).
  split; [lia|].
  intros Hshort. apply length_zero_iff_nil.
  assert ((total - 1) / spb <= 0).
  { destruct (Z.eq_dec total 0) as [->|Hne].
    - assert ((0 - 1) / spb < 0) by (apply Z.div_lt_upper_bound; lia). lia.
    - rewrite Z.div_small by lia. lia. }
  lia.
Qed.

(** Witness of X15: 60 samples at 26 samples per block. *)
Lemma demodulate_bit_bounds_witness :
  exists bits,
    demodulate default_modem 8000 (repeat 0%R 60) = Returns bits
    /\ Forall is_bit bits
    /\ len (aligned_audio default_modem 8000 (repeat 0%R 60))
       / decoder_samples_per_bit default_modem 8000 - 1
       <= len bits
       <= len (aligned_audio default_modem 8000 (repeat 0%R 60))
          / decoder_samples_per_bit default_modem 8000
    /\ (len (aligned_audio default_modem 8000 (repeat 0%R 60))
        <= decoder_samples_per_bit default_modem 8000 -> bits = []).
Proof.
  apply (demodulate_bit_bounds default_modem 8000 (repeat 0%R 60)).
  - cbn [baud_rate default_modem]. lia.
  - change (decoder_samples_per_bit default_modem 8000) with 26. lia.
Defined.

(** X16. When the file rate is at least the (positive) baud rate, no
    exception is swallowed by [decode_from_audio]: the demodulator returns
    bits, [bits_to_text] returns a string on them, and that string is the
    result. *)
Theorem decode_from_audio_composes m rate audio_data :
  0 < baud_rate m <= rate ->
  exists bits text,
    demodulate m rate audio_data = Returns bits
    /\ bits_to_text bits = Returns text
    /\ decode_from_audio m rate audio_data = text.
Proof.
  intros H.
  assert (Hspb : 0 < decoder_samples_per_bit m rate).
  { pose proof (int_div_floor rate (baud_rate m) ltac:(lia) ltac:(lia)) as Hf.
    unfold decoder_samples_per_bit. nia. }
  destruct (demodulate_bit_count m rate audio_data ltac:(lia) Hspb)
    as (bits & E & _ & _).
  destruct (bits_to_text_returns bits (demodulate_is_bits _ _ _ _ E)) as [text Et].
  exists bits, text. split; [exact E|]. split; [exact Et|].
  unfold decode_from_audio. rewrite E. cbn [bind]. rewrite Et. reflexivity.
Qed.

(** Witness of X16: the default configuration on a file at 44100 Hz. *)
Lemma decode_from_audio_composes_witness :
  exists bits text,
    demodulate default_modem 44100 [1%R; 0%R] = Returns bits
    /\ bits_to_text bits = Returns text
    /\ decode_from_audio default_modem 44100 [1%R; 0%R] = text.
Proof.
  apply (decode_from_audio_composes default_modem 44100 [1%R; 0%R]).
  cbn [baud_rate default_modem]. lia.
Defined.

(** ** Constructor and settings menu *)

Lemma settings_menu_consistent modem choice entry :
  consistent modem ->
  exists modem',
    settings_menu modem choice entry = Returns modem' /\ consistent modem'.
Proof.
  intros (Hs & Hb & H0 & H1 & Hd). unfold settings_menu.
  destruct (list_eqb choice [49]).
  { destruct entry as [new_rate|]; [|eexists; split; [reflexivity|]; repeat split; assumption].
    destruct (Z.gtb_spec new_rate 0);
      [|eexists; split; [reflexivity|]; repeat split; assumption].
    destruct (Z.eqb_spec (baud_rate (settings modem)) 0); [lia|].
    eexists. split; [reflexivity|]. unfold consistent. cbn.
    repeat split; assumption || lia. }
  destruct (list_eqb choice [50]).
  { destruct entry as [new_baud|]; [|eexists; split; [reflexivity|]; repeat split; assumption].
    destruct (Z.gtb_spec new_baud 0);
      [|eexists; split; [reflexivity|]; repeat split; assumption].
    eexists. split; [reflexivity|]. unfold consistent. cbn.
    repeat split; assumption || lia. }
  destruct (list_eqb choice [51]).
  { eexists. split; [reflexivity|]. unfold consistent. cbn.
    repeat split; assumption. }
  destruct (list_eqb choice [52]).
  { eexists. split; [reflexivity|]. unfold consistent. cbn.
    repeat split; assumption || lia. }
  eexists. split; [reflexivity|]. repeat split; assumption.
Qed.


